(** * Camino network runner: the local network manager and the control-plane
      wrapper, embedded and verified.

    The development follows the Go sources:
    - [Module Local] embeds package [localnetworkrunner]
      ([NewNetwork], [AddNode], [GetNode], [GetNodesIDs], [Stop],
      [RemoveNode], [createFile], [waitNode]);
    - [Module Server] embeds the control-plane wrapper of package [server]
      ([newNetwork], [waitForHealthy], [stop]).

    Go maps are [gmap]s, [uint64] is an [N] with its wrap-around written out,
    [float64] is the kernel's binary64 type, and everything the process does
    to the outside world (files, child processes, the websocket client) is
    recorded in a trace of events whose outcomes an environment decides. *)

From Stdlib Require Import ZArith NArith List String Lia.
From Stdlib Require Import Floats.PrimFloat.
From stdpp Require Import base option list gmap strings pretty.

Module Local.

(** ** Data *)

(** A Go [interface{}] as [encoding/json] produces it. [AOther] stands for
    the arrays, objects and other dynamic types the manager never inspects;
    it keeps their text. *)
Inductive any : Type :=
| ANil
| ABool (b : bool)
| AFloat64 (f : float)
| AString (s : string)
| AOther (raw : string).

(** [v.(string)], [v.(bool)] and [v.(float64)] in their comma-ok form, applied
    to the result of a map index (a missing key indexes to nil). *)
Definition as_string (v : option any) : option string :=
  match v with Some (AString s) => Some s | _ => None end.

Definition as_bool (v : option any) : option bool :=
  match v with Some (ABool b) => Some b | _ => None end.

Definition as_float64 (v : option any) : option float :=
  match v with Some (AFloat64 f) => Some f | _ => None end.

(** [v == nil] *)
Definition is_nil (v : any) : bool :=
  match v with ANil => true | _ => false end.

(** [node.Config], with the fields [AddNode] reads. *)
Record Config : Type := {
  Name : string;
  Type_ : any;
  ConfigFlags : string;
  Cert : string;
  PrivateKey : string
}.

(** [network.Config]. *)
Record NetworkConfig : Type := {
  Genesis : string;
  CChainConfig : string;
  CoreConfigFlags : string;
  NodeConfigs : list Config
}.

Record apiClient : Type := {
  ipAddr : string;
  port : Z;
  requestTimeout : Z
}.

(** The part of [exec.Cmd] the manager uses; [Process] identifies the child
    that [Start] created. *)
Record Cmd : Type := {
  Path : string;
  Args : list string;
  Process : nat
}.

Record localNode : Type := {
  id : string;
  client : apiClient;
  cmd : Cmd
}.

Record localNetwork : Type := {
  binMap : gmap Z string;
  nextIntNodeID : N;
  nodes : gmap string localNode;
  coreConfigFlags : gmap string any;
  genesis : string;
  cChainConfig : string
}.

(** One constructor for each place the package builds an error, plus
    [ErrExternal] for the errors of the operating system and of the
    libraries. *)
Inductive error : Type :=
| ErrExternal (msg : string)
| ErrValidation (cause : error)
| ErrCoreConfigFlags (cause : error)
| ErrRepeatedName (name nodeID : string)
| ErrTypeEmpty (nodeID : string)
| ErrConfigFlagsEmpty (nodeID : string)
| ErrUnmarshal (nodeID : string) (cause : error)
| ErrLacksFlag (nodeID key : string)
| ErrMarshal (nodeID : string) (cause : error)
| ErrConfigFile (fname nodeID : string) (cause : error)
| ErrCChainConfigFile (fname nodeID : string) (cause : error)
| ErrGenesisFile (fname nodeID : string) (cause : error)
| ErrCertEmpty (nodeID : string)
| ErrCertFile (fname nodeID : string) (cause : error)
| ErrPrivateKeyEmpty (nodeID : string)
| ErrKeyFile (fname nodeID : string) (cause : error)
| ErrBinMap (key : Z) (nodeID : string)
| ErrExec (path flag nodeID : string) (cause : error)
| ErrNotFound (nodeID : string)
| ErrSignal (nodeID : string) (cause : error).

Inductive signal : Type := SIGTERM.

(** What the manager asks of the outside world. *)
Inductive syscall : Type :=
| SysMkdirAll (dir : string) (perm : N)
| SysCreate (fname : string)
| SysWrite (fname contents : string)
| SysFileClose (fname : string)
| SysStart (path : string) (args : list string)
| SysWsClose (c : apiClient)
| SysSignal (pid : nat) (sig : signal).

(** A call and how it ended ([None]: no error). *)
Record event : Type := {
  call : syscall;
  failure : option string
}.

(** The libraries and the operating system, none of which the package
    implements: JSON, path arithmetic, numeric conversions, the flag names of
    the node's [config] package, config validation, and the outcome of each
    system call given everything that happened before it. *)
Record Platform : Type := {
  json_Unmarshal : string → gmap string any → gmap string any + string;
  json_Marshal : gmap string any → string + string;
  path_Join : list string → string;
  path_Dir : string → string;
  uint_of_float64 : float → Z;
  nodeType_of_float64 : float → Z;
  Validate : NetworkConfig → option string;
  ChainConfigDirKey : string;
  GenesisConfigFileKey : string;
  StakingEphemeralCertEnabledKey : string;
  StakingCertPathKey : string;
  StakingKeyPathKey : string;
  PublicIPKey : string;
  HTTPPortKey : string;
  ConfigFileKey : string;
  os_outcome : list event → syscall → option string
}.

(** ** Effects

    A method of [*localNetwork] reads and updates the network and the trace,
    and returns a value, an error, or panics. *)
Record State : Type := {
  net : localNetwork;
  trace : list event
}.

Inductive result (A : Type) : Type :=
| Ok (a : A)
| Err (e : error)
| Panic (msg : string).
Arguments Ok {A} a.
Arguments Err {A} e.
Arguments Panic {A} msg.

Definition M (A : Type) : Type := State → result A * State.

Definition ret {A : Type} (a : A) : M A := λ s, (Ok a, s).

Definition fail {A : Type} (e : error) : M A := λ s, (Err e, s).

Definition panic {A : Type} (msg : string) : M A := λ s, (Panic msg, s).

Definition bind {A B : Type} (m : M A) (k : A → M B) : M B :=
  λ s, match m s with
       | (Ok a, s') => k a s'
       | (Err e, s') => (Err e, s')
       | (Panic msg, s') => (Panic msg, s')
       end.

Declare Scope go_scope.
Delimit Scope go_scope with go.
Notation "x ←! m ;; k" := (bind m (λ x, k))
  (at level 100, m at next level, right associativity) : go_scope.
Notation "m ;;! k" := (bind m (λ _, k))
  (at level 100, right associativity) : go_scope.
Open Scope go_scope.

(** [if cond { return nil, e }] *)
Definition return_if (cond : bool) (e : error) : M unit :=
  if cond then fail e else ret tt.

(** [fmt.Errorf("...: %w", err)] around the error of [m]. *)
Definition wrap {A : Type} (f : error → error) (m : M A) : M A :=
  λ s, match m s with
       | (Err e, s') => (Err (f e), s')
       | r => r
       end.

Definition get_net : M localNetwork := λ s, (Ok (net s), s).

Definition set_nextIntNodeID (n : N) : M unit :=
  λ s, (Ok tt,
        {| net := {| binMap := binMap (net s); nextIntNodeID := n;
                     nodes := nodes (net s);
                     coreConfigFlags := coreConfigFlags (net s);
                     genesis := genesis (net s);
                     cChainConfig := cChainConfig (net s) |};
           trace := trace s |}).

Definition set_nodes (ns : gmap string localNode) : M unit :=
  λ s, (Ok tt,
        {| net := {| binMap := binMap (net s);
                     nextIntNodeID := nextIntNodeID (net s);
                     nodes := ns;
                     coreConfigFlags := coreConfigFlags (net s);
                     genesis := genesis (net s);
                     cChainConfig := cChainConfig (net s) |};
           trace := trace s |}).

Definition log (ev : event) (s : State) : State :=
  {| net := net s; trace := trace s ++ [ev] |}.

(** [uint64] addition. *)
Definition wrap64 (n : N) : N := (n mod 2 ^ 64)%N.

(** [fmt.Sprint] of a [uint64]: its decimal numeral. *)
Definition fmt_Sprint (n : N) : string := pretty n.

Definition is_empty (s : string) : bool := bool_decide (s = "").

(** [time.Second], in nanoseconds. *)
Definition second : Z := 1000000000.

Section Manager.

Variable P : Platform.

(** A system call whose error the caller looks at. *)
Definition sys (c : syscall) : M unit :=
  λ s, let r := os_outcome P (trace s) c in
       let s' := log {| call := c; failure := r |} s in
       match r with
       | None => (Ok tt, s')
       | Some msg => (Err (ErrExternal msg), s')
       end.

(** A system call whose error is dropped ([file.Close()]). *)
Definition sys_ignore (c : syscall) : M unit :=
  λ s, (Ok tt, log {| call := c; failure := os_outcome P (trace s) c |} s).

(** A call that returns nothing (the websocket client's [Close()]). *)
Definition act (c : syscall) : M unit :=
  λ s, (Ok tt, log {| call := c; failure := None |} s).

(** [cmd.Start()]: the child is identified by the position of its start in
    the trace. *)
Definition cmd_Start (path : string) (args : list string) : M Cmd :=
  λ s, let r := os_outcome P (trace s) (SysStart path args) in
       let s' := log {| call := SysStart path args; failure := r |} s in
       match r with
       | None => (Ok {| Path := path; Args := args;
                        Process := length (trace s) |}, s')
       | Some msg => (Err (ErrExternal msg), s')
       end.

Definition lift_ext {A : Type} (r : A + string) : M A :=
  match r with
  | inl a => ret a
  | inr msg => fail (ErrExternal msg)
  end.

(** [createFile] creates a file under [fname], making all intermediate
    directories, and fills it with [contents]. *)
Definition createFile (fname contents : string) : M unit :=
  sys (SysMkdirAll (path_Dir P fname) 488) ;;!
  sys (SysCreate fname) ;;!
  sys (SysWrite fname contents) ;;!
  sys_ignore (SysFileClose fname) ;;!
  ret tt.

(** [NewAPIClient(nodeIP, nodePort, 20*time.Second)] *)
Definition NewAPIClient (ip : string) (p : Z) (timeout : Z) : apiClient :=
  {| ipAddr := ip; port := p; requestTimeout := timeout |}.

(** The flag [AddNode] passes to the binary:
    [fmt.Sprintf("--%s=%s", config.ConfigFileKey, configFilePath)]. *)
Definition configFileFlag (configFilePath : string) : string :=
  "--" +:+ ConfigFileKey P +:+ "=" +:+ configFilePath.

(** The system calls of a [createFile] that succeeds. *)
Definition createFile_calls (fname contents : string) : list syscall :=
  [SysMkdirAll (path_Dir P fname) 488; SysCreate fname;
   SysWrite fname contents; SysFileClose fname].

(** [usesEphemeralCert, ok := configFlags[...].(bool)], false when not ok:
    does the node generate its own certificate and key? *)
Definition usesEphemeralCert (configFlags : gmap string any) : bool :=
  match as_bool (configFlags !! StakingEphemeralCertEnabledKey P) with
  | Some b => b
  | None => false
  end.

(** The staking certificate and key, written when the node does not generate
    its own. *)
Definition stakingFiles (nodeConfig : Config) (nodeID : string)
    (configFlags : gmap string any) : M unit :=
  return_if (is_empty (Cert nodeConfig)) (ErrCertEmpty nodeID) ;;!
  match as_string (configFlags !! StakingCertPathKey P) with
  | None => fail (ErrLacksFlag nodeID (StakingCertPathKey P))
  | Some certFname =>
    wrap (ErrCertFile certFname nodeID)
         (createFile certFname (Cert nodeConfig)) ;;!
    return_if (is_empty (PrivateKey nodeConfig)) (ErrPrivateKeyEmpty nodeID) ;;!
    match as_string (configFlags !! StakingKeyPathKey P) with
    | None => fail (ErrLacksFlag nodeID (StakingKeyPathKey P))
    | Some keyFname =>
      wrap (ErrKeyFile keyFname nodeID)
           (createFile keyFname (PrivateKey nodeConfig))
    end
  end.

(** [AddNode] prepares the files the node needs in the filesystem, and
    executes it. *)
Definition AddNode (nodeConfig : Config) : M localNode :=
  let configFlags : gmap string any := ∅ in
  net0 ←! get_net ;;
  (* internal node id from the incremental uint or from the config *)
  let nodeID := fmt_Sprint (nextIntNodeID net0) in
  set_nextIntNodeID (wrap64 (nextIntNodeID net0 + 1)) ;;!
  nodeID ←! (if is_empty (Name nodeConfig) then ret nodeID
             else match nodes net0 !! Name nodeConfig with
                  | Some _ => fail (ErrRepeatedName (Name nodeConfig) nodeID)
                  | None => ret (Name nodeConfig)
                  end) ;;
  return_if (is_nil (Type_ nodeConfig)) (ErrTypeEmpty nodeID) ;;!
  return_if (is_empty (ConfigFlags nodeConfig)) (ErrConfigFlagsEmpty nodeID) ;;!
  (* copy the common flags, then unmarshal the node's own over them *)
  let configFlags := coreConfigFlags net0 ∪ configFlags in
  configFlags ←! wrap (ErrUnmarshal nodeID)
    (lift_ext (json_Unmarshal P (ConfigFlags nodeConfig) configFlags)) ;;
  match as_string (configFlags !! ChainConfigDirKey P) with
  | None => fail (ErrLacksFlag nodeID (ChainConfigDirKey P))
  | Some configDir =>
    (* main config file: all the flags, marshalled *)
    let configFilePath := path_Join P [configDir; "config.json"] in
    configBytes ←! wrap (ErrMarshal nodeID)
      (lift_ext (json_Marshal P configFlags)) ;;
    wrap (ErrConfigFile configFilePath nodeID)
         (createFile configFilePath configBytes) ;;!
    let cConfigFilePath := path_Join P [configDir; "C"; "config.json"] in
    wrap (ErrCChainConfigFile cConfigFilePath nodeID)
         (createFile cConfigFilePath (cChainConfig net0)) ;;!
    match as_string (configFlags !! GenesisConfigFileKey P) with
    | None => fail (ErrLacksFlag nodeID (GenesisConfigFileKey P))
    | Some genesisFname =>
      wrap (ErrGenesisFile genesisFname nodeID)
           (createFile genesisFname (genesis net0)) ;;!
      (if usesEphemeralCert configFlags then ret tt
       else stakingFiles nodeConfig nodeID configFlags) ;;!
      (* the node's API client *)
      match as_string (configFlags !! PublicIPKey P) with
      | None => fail (ErrLacksFlag nodeID (PublicIPKey P))
      | Some nodeIP =>
        match as_float64 (configFlags !! HTTPPortKey P) with
        | None => fail (ErrLacksFlag nodeID (HTTPPortKey P))
        | Some nodePortF =>
          let nodePort := uint_of_float64 P nodePortF in
          let apiClient := NewAPIClient nodeIP nodePort (20 * second) in
          (* the binary for this kind of node, and its execution *)
          match Type_ nodeConfig with
          | AFloat64 t =>
            let binMapKey := nodeType_of_float64 P t in
            match binMap net0 !! binMapKey with
            | None => fail (ErrBinMap binMapKey nodeID)
            | Some avalanchegoPath =>
              let flag := configFileFlag configFilePath in
              cmd ←! wrap (ErrExec avalanchegoPath flag nodeID)
                (cmd_Start avalanchegoPath [flag]) ;;
              let node := {| id := nodeID; client := apiClient; cmd := cmd |} in
              net1 ←! get_net ;;
              set_nodes (<[nodeID := node]> (nodes net1)) ;;!
              ret node
            end
          | _ => panic "interface conversion: interface {} is not float64"
          end
        end
      end
    end
  end.

Definition GetNode (nodeID : string) : M localNode :=
  net0 ←! get_net ;;
  match nodes net0 !! nodeID with
  | None => fail (ErrNotFound nodeID)
  | Some node => ret node
  end.

(** [GetNodesIDs]: the keys, in the order the map is ranged over. *)
Definition GetNodesIDs (order : list string) : M (list string) :=
  net0 ←! get_net ;;
  ret (filter (λ k, is_Some (nodes net0 !! k)) order).

Definition RemoveNode (nodeID : string) : M unit :=
  net0 ←! get_net ;;
  match nodes net0 !! nodeID with
  | None => fail (ErrNotFound nodeID)
  | Some node =>
    set_nodes (delete nodeID (nodes net0)) ;;!
    (* the websocket connection is closed before the node is stopped *)
    act (SysWsClose (client node)) ;;!
    wrap (ErrSignal (id node)) (sys (SysSignal (Process (cmd node)) SIGTERM))
  end.

(** [for nodeID := range net.nodes { ... }]: Go visits the keys in an order
    of its choosing, [order], and does not produce a key that was deleted
    before the loop reached it. *)
Fixpoint range_nodes (body : string → M unit) (order : list string) : M unit :=
  match order with
  | [] => ret tt
  | nodeID :: rest =>
    net0 ←! get_net ;;
    match nodes net0 !! nodeID with
    | None => range_nodes body rest
    | Some _ => body nodeID ;;! range_nodes body rest
    end
  end.

(** [Stop]: the body of the loop returns the error of [RemoveNode], which
    ends the loop. *)
Definition Stop (order : list string) : M unit :=
  range_nodes RemoveNode order.

(** [NewNetwork] creates a network from a configuration and a map of node
    kinds to binaries. *)
Fixpoint addNodes (cfgs : list Config) : M unit :=
  match cfgs with
  | [] => ret tt
  | nodeConfig :: rest => AddNode nodeConfig ;;! addNodes rest
  end.

Definition emptyNetwork (networkConfig : NetworkConfig)
    (bins : gmap Z string) : localNetwork :=
  {| binMap := bins; nextIntNodeID := 1; nodes := ∅;
     coreConfigFlags := ∅;
     genesis := Genesis networkConfig;
     cChainConfig := CChainConfig networkConfig |}.

Definition NewNetwork (networkConfig : NetworkConfig) (bins : gmap Z string)
    (tr : list event) : result localNetwork * list event :=
  match Validate P networkConfig with
  | Some msg => (Err (ErrValidation (ErrExternal msg)), tr)
  | None =>
    let net0 := emptyNetwork networkConfig bins in
    match json_Unmarshal P (CoreConfigFlags networkConfig) (coreConfigFlags net0) with
    | inr msg => (Err (ErrCoreConfigFlags (ErrExternal msg)), tr)
    | inl flags =>
      let net1 := {| binMap := binMap net0; nextIntNodeID := nextIntNodeID net0;
                     nodes := nodes net0; coreConfigFlags := flags;
                     genesis := genesis net0;
                     cChainConfig := cChainConfig net0 |} in
      match addNodes (NodeConfigs networkConfig) {| net := net1; trace := tr |} with
      | (Ok _, s) => (Ok (net s), trace s)
      | (Err e, s) => (Err e, trace s)
      | (Panic msg, s) => (Panic msg, trace s)
      end
    end
  end.

(** The operations of the manager, and a client that calls them one after
    the other. *)
Inductive op : Type :=
| OpAddNode (nodeConfig : Config)
| OpGetNode (nodeID : string)
| OpGetNodesIDs (order : list string)
| OpRemoveNode (nodeID : string)
| OpStop (order : list string).

Definition run_op (o : op) (s : State) : State :=
  match o with
  | OpAddNode nodeConfig => (AddNode nodeConfig s).2
  | OpGetNode nodeID => (GetNode nodeID s).2
  | OpGetNodesIDs order => (GetNodesIDs order s).2
  | OpRemoveNode nodeID => (RemoveNode nodeID s).2
  | OpStop order => (Stop order s).2
  end.

(** The name a call of [AddNode] generated: the name of the node it
    returned, when the config had none. *)
Definition generated (nodeConfig : Config) (s : State) : option string :=
  match AddNode nodeConfig s with
  | (Ok node, _) => if is_empty (Name nodeConfig) then Some (id node) else None
  | _ => None
  end.

(** The calls of [AddNode] in a run, in order: the value of the counter each
    found, and the name it generated, if any. *)
Fixpoint adds_log (ops : list op) (s : State) : list (N * option string) :=
  match ops with
  | [] => []
  | OpAddNode nodeConfig :: rest =>
    (nextIntNodeID (net s), generated nodeConfig s)
    :: adds_log rest (run_op (OpAddNode nodeConfig) s)
  | o :: rest => adds_log rest (run_op o s)
  end.

Definition generated_names (ops : list op) (s : State) : list string :=
  omap snd (adds_log ops s).

End Manager.


(** ** [waitNode]

    The node's info client and the clock are the outside world here: a
    world [W] that each query and each sleep moves forward. *)
Section WaitNode.

Context {W : Type}.

(** [info.IsBootstrapped(chain)]: the answer and the error. *)
Variable IsBootstrapped : string → W → (bool * option string) * W.

(** [time.Now()], in nanoseconds. *)
Variable Now : W → Z.

(** [time.Sleep(d)] *)
Variable Sleep : Z → W → W.

Definition timeout : Z := 60 * second.

Definition pollTime : Z := 10 * second.

(** [err != nil || !bootstrapped] *)
Definition not_bootstrapped (r : bool * option string) : bool :=
  match r with
  | (bootstrapped, Some _) => true
  | (bootstrapped, None) => negb bootstrapped
  end.

(** The body of the loop: the value it leaves in [nodeIsUp]. A chain that is
    not up ends the round ([continue]) for P and C, without sleeping; for X
    the round ends with a sleep. *)
Definition pollRound (w : W) : bool * W :=
  let '(r, w) := IsBootstrapped "P" w in
  if not_bootstrapped r then (false, w)
  else
    let '(r, w) := IsBootstrapped "C" w in
    if not_bootstrapped r then (false, w)
    else
      let '(r, w) := IsBootstrapped "X" w in
      if not_bootstrapped r then (false, Sleep pollTime w)
      else (true, w).

(** [for t0 := time.Now(); !nodeIsUp && time.Since(t0) <= timeout; { ... }],
    with [fuel] rounds at most. *)
Fixpoint waitLoop (fuel : nat) (t0 : Z) (nodeIsUp : bool) (w : W)
    : option (bool * W) :=
  if negb nodeIsUp && (Now w - t0 <=? timeout)%Z then
    match fuel with
    | O => None
    | S fuel' => let '(up, w') := pollRound w in waitLoop fuel' t0 up w'
    end
  else Some (nodeIsUp, w).

(** [waitNode] waits until the node initializes, or times out. *)
Definition waitNode (fuel : nat) (w : W) : option (bool * W) :=
  waitLoop fuel (Now w) false w.

(** The world at the start of round [k], when the rounds before it
    failed. *)
Definition world_after (k : nat) (w : W) : W :=
  Nat.iter k (λ w, (pollRound w).2) w.

(** A round that starts in [w] finds P, C and X bootstrapped, each query
    without error. *)
Definition all_bootstrapped (w : W) : Prop :=
  let '(rP, w1) := IsBootstrapped "P" w in
  let '(rC, w2) := IsBootstrapped "C" w1 in
  let '(rX, _) := IsBootstrapped "X" w2 in
  rP = (true, None) ∧ rC = (true, None) ∧ rX = (true, None).

(** Round [k] is polled before the timeout (it and every round before it
    start with at most [timeout] elapsed since [t0]) and finds the three
    chains bootstrapped. *)
Definition healthy_round (t0 : Z) (w : W) (k : nat) : Prop :=
  (∀ j, j ≤ k → (Now (world_after j w) - t0 ≤ timeout)%Z) ∧
  all_bootstrapped (world_after k w).

End WaitNode.

(** The invariant of the mapping: a key is never the empty string, and is
    the name stored in the handle it maps to. *)
Definition well_formed (n : localNetwork) : Prop :=
  ∀ k node, nodes n !! k = Some node → k ≠ "" ∧ id node = k.

(** ** Reasoning about computations *)

Lemma bind_Ok_inv {A B : Type} (m : M A) (k : A → M B) s b s' :
  bind m k s = (Ok b, s') →
  ∃ a s1, m s = (Ok a, s1) ∧ k a s1 = (Ok b, s').
Proof.
  unfold bind. destruct (m s) as [[a|e|msg] s1]; intros H; try discriminate.
  eauto.
Qed.

Lemma wrap_Ok_inv {A : Type} (f : error → error) (m : M A) s a s' :
  wrap f m s = (Ok a, s') → m s = (Ok a, s').
Proof.
  unfold wrap. destruct (m s) as [[a0|e|msg] s1]; intros H; congruence.
Qed.

Lemma return_if_Ok_inv cond e s u s' :
  return_if cond e s = (Ok u, s') → cond = false ∧ s' = s.
Proof. destruct cond; cbv; intros H; split; congruence. Qed.

(** [preserves f m]: running [m] leaves the aspect [f] of the network as it
    was, however [m] ends. *)
Definition preserves {A X : Type} (f : localNetwork → X) (m : M A) : Prop :=
  ∀ s, f (net (m s).2) = f (net s).

(** [on_failure f m]: the same, but only promised when [m] does not return
    a value. *)
Definition on_failure {A X : Type} (f : localNetwork → X) (m : M A) : Prop :=
  ∀ s, match (m s).1 with
       | Ok _ => True
       | _ => f (net (m s).2) = f (net s)
       end.

Create HintDb frame discriminated.

Section Frame.

Context {X : Type} (f : localNetwork → X).

Lemma preserves_ret {A : Type} (a : A) : preserves f (ret a).
Proof. done. Qed.

Lemma preserves_fail {A : Type} e : preserves f (@fail A e).
Proof. done. Qed.

Lemma preserves_panic {A : Type} msg : preserves f (@panic A msg).
Proof. done. Qed.

Lemma preserves_get_net : preserves f get_net.
Proof. done. Qed.

Lemma preserves_return_if cond e : preserves f (return_if cond e).
Proof. by destruct cond. Qed.

Lemma preserves_bind {A B : Type} (m : M A) (k : A → M B) :
  preserves f m → (∀ a, preserves f (k a)) → preserves f (bind m k).
Proof.
  intros Hm Hk s. unfold bind. specialize (Hm s).
  destruct (m s) as [[a|e|msg] s1]; simpl in *; try done.
  by rewrite Hk.
Qed.

Lemma preserves_wrap {A : Type} g (m : M A) :
  preserves f m → preserves f (wrap g m).
Proof.
  intros Hm s. unfold wrap. specialize (Hm s).
  by destruct (m s) as [[a|e|msg] s1].
Qed.

Lemma preserves_lift_ext {A : Type} (r : A + string) : preserves f (lift_ext r).
Proof. by destruct r. Qed.

Lemma preserves_sys P c : preserves f (sys P c).
Proof. intros s. unfold sys. by destruct (os_outcome P (trace s) c). Qed.

Lemma preserves_sys_ignore P c : preserves f (sys_ignore P c).
Proof. done. Qed.

Lemma preserves_act c : preserves f (act c).
Proof. done. Qed.

Lemma preserves_cmd_Start P path args : preserves f (cmd_Start P path args).
Proof.
  intros s. unfold cmd_Start.
  by destruct (os_outcome P (trace s) (SysStart path args)).
Qed.

Lemma on_failure_preserves {A : Type} (m : M A) :
  preserves f m → on_failure f m.
Proof. intros Hm s. specialize (Hm s). by destruct (m s).1. Qed.

Lemma on_failure_bind {A B : Type} (m : M A) (k : A → M B) :
  preserves f m → (∀ a, on_failure f (k a)) → on_failure f (bind m k).
Proof.
  intros Hm Hk s. unfold bind. specialize (Hm s).
  destruct (m s) as [[a|e|msg] s1]; simpl in *; try done.
  specialize (Hk a s1). destruct (k a s1) as [[b|e|msg] s2]; simpl in *;
    congruence.
Qed.

End Frame.


Ltac frame :=
  repeat (intros;
          lazymatch goal with
          | |- preserves _ (bind _ _) => apply preserves_bind
          | |- preserves _ (wrap _ _) => apply preserves_wrap
          | |- preserves _ (ret _) => apply preserves_ret
          | |- preserves _ (fail _) => apply preserves_fail
          | |- preserves _ (panic _) => apply preserves_panic
          | |- preserves _ get_net => apply preserves_get_net
          | |- preserves _ (return_if _ _) => apply preserves_return_if
          | |- preserves _ (lift_ext _) => apply preserves_lift_ext
          | |- preserves _ (sys _ _) => apply preserves_sys
          | |- preserves _ (sys_ignore _ _) => apply preserves_sys_ignore
          | |- preserves _ (act _) => apply preserves_act
          | |- preserves _ (cmd_Start _ _ _) => apply preserves_cmd_Start
          | |- preserves _ (match ?x with _ => _ end) => destruct x
          | |- _ => solve [auto with frame]
          end).

Lemma bind_get_net {B : Type} (k : localNetwork → M B) s :
  bind get_net k s = k (net s) s.
Proof. done. Qed.

Lemma bind_set_nextIntNodeID {B : Type} n (k : unit → M B) s :
  bind (set_nextIntNodeID n) k s = k tt (set_nextIntNodeID n s).2.
Proof. done. Qed.

Lemma bind_set_nodes {B : Type} ns (k : unit → M B) s :
  bind (set_nodes ns) k s = k tt (set_nodes ns s).2.
Proof. done. Qed.

Lemma preserves_set_nodes_counter ns : preserves nextIntNodeID (set_nodes ns).
Proof. done. Qed.

Lemma preserves_set_nextIntNodeID_nodes n : preserves nodes (set_nextIntNodeID n).
Proof. done. Qed.

#[export] Hint Resolve preserves_set_nodes_counter
  preserves_set_nextIntNodeID_nodes : frame.

Section ManagerFacts.

Variable P : Platform.

Lemma preserves_createFile {X : Type} (f : localNetwork → X) fname contents :
  preserves f (createFile P fname contents).
Proof. unfold createFile. frame. Qed.

Hint Resolve preserves_createFile : frame.

Lemma preserves_stakingFiles {X : Type} (f : localNetwork → X)
    nodeConfig nodeID configFlags :
  preserves f (stakingFiles P nodeConfig nodeID configFlags).
Proof. unfold stakingFiles. frame. Qed.

Hint Resolve preserves_stakingFiles : frame.

(** The trace only grows. *)
Definition extends {A : Type} (m : M A) : Prop :=
  ∀ s, ∃ evs, trace (m s).2 = trace s ++ evs.

(** Every call of [AddNode] consumes one value of the counter, whatever its
    outcome. *)
Lemma AddNode_counter nodeConfig s :
  nextIntNodeID (net (AddNode P nodeConfig s).2)
  = wrap64 (nextIntNodeID (net s) + 1).
Proof.
  unfold AddNode. rewrite bind_get_net, bind_set_nextIntNodeID.
  match goal with
  | |- nextIntNodeID (net (?m ?s1).2) = _ =>
    assert (preserves nextIntNodeID m) as Hm by frame;
    rewrite (Hm s1)
  end.
  done.
Qed.

(** A failing or panicking [AddNode] leaves the mapping as it was. *)
Lemma AddNode_on_failure nodeConfig : on_failure nodes (AddNode P nodeConfig).
Proof.
  unfold AddNode.
  repeat first
    [ apply on_failure_bind; [ solve [frame] | intros ? ]
    | match goal with
      | |- on_failure _ (match ?x with _ => _ end) => destruct x
      end
    | apply on_failure_preserves; solve [frame] ].
  (* what is left is the last step, which records the node and returns it *)
  intros st; exact I.
Qed.


(** An event that did not fail, or the close of a file, whose result
    [createFile] drops. *)
Definition went_through (ev : event) : Prop :=
  failure ev = None ∨ ∃ fname, call ev = SysFileClose fname.

Lemma createFile_Ok fname contents s u s' :
  createFile P fname contents s = (Ok u, s') →
  ∃ evs, net s' = net s ∧ trace s' = trace s ++ evs ∧
         map call evs = createFile_calls P fname contents ∧
         Forall went_through evs.
Proof.
  unfold createFile, bind, sys, sys_ignore, ret, log. simpl.
  repeat (match goal with
          | |- context [match os_outcome P ?tr ?c with _ => _ end] =>
            destruct (os_outcome P tr c) eqn:?
          end; simpl; try discriminate).
  intros H. injection H as _ <-. simpl. eexists. split; [done|]. split.
  - simpl. rewrite <- !app_assoc. simpl. reflexivity.
  - split; [done|].
    repeat (apply Forall_cons; split; [unfold went_through; simpl; eauto|]).
    apply Forall_nil_2.
Qed.

Ltac ok_inv H :=
  repeat first
    [ rewrite bind_get_net in H
    | rewrite bind_set_nextIntNodeID in H
    | rewrite bind_set_nodes in H
    | match type of H with
      | bind _ _ _ = (Ok _, _) =>
        let Hs := fresh "Hstep" in
        apply bind_Ok_inv in H as (? & ? & Hs & H)
      | (match ?x with _ => _ end) _ = (Ok _, _) =>
        destruct x eqn:?; try discriminate H
      | (if ?x then _ else _) _ = (Ok _, _) =>
        destruct x eqn:?; try discriminate H
      end ].

Tactic Notation "step" hyp(H) "as" ident(a) ident(s1) ident(Hs) :=
  apply bind_Ok_inv in H as (a & s1 & Hs & H); cbv beta in H.

Lemma stakingFiles_Ok nodeConfig nodeID configFlags s u s' :
  stakingFiles P nodeConfig nodeID configFlags s = (Ok u, s') →
  ∃ certFname keyFname evs,
    as_string (configFlags !! StakingCertPathKey P) = Some certFname ∧
    as_string (configFlags !! StakingKeyPathKey P) = Some keyFname ∧
    net s' = net s ∧ trace s' = trace s ++ evs ∧
    map call evs = createFile_calls P certFname (Cert nodeConfig)
                   ++ createFile_calls P keyFname (PrivateKey nodeConfig) ∧
    Forall went_through evs.
Proof.
  unfold stakingFiles. intros H. ok_inv H.
  apply return_if_Ok_inv in Hstep as [_ ->].
  apply wrap_Ok_inv, createFile_Ok in Hstep0 as (evs1 & Hn1 & Ht1 & Hc1 & Hw1).
  apply return_if_Ok_inv in Hstep1 as [_ ->].
  apply wrap_Ok_inv, createFile_Ok in H as (evs2 & Hn2 & Ht2 & Hc2 & Hw2).
  exists s0, s1, (evs1 ++ evs2). repeat split; try done.
  - congruence.
  - rewrite Ht2, Ht1. by rewrite app_assoc.
  - by rewrite map_app, Hc1, Hc2.
  - by apply Forall_app.
Qed.


Lemma lift_ext_Ok_inv {A : Type} (r : A + string) s a s' :
  lift_ext r s = (Ok a, s') → r = inl a ∧ s' = s.
Proof. destruct r; cbv; intros H; split; congruence. Qed.

Lemma cmd_Start_Ok path args s c s' :
  cmd_Start P path args s = (Ok c, s') →
  c = {| Path := path; Args := args; Process := length (trace s) |} ∧
  net s' = net s ∧
  trace s' = trace s ++ [{| call := SysStart path args; failure := None |}].
Proof.
  unfold cmd_Start.
  destruct (os_outcome P (trace s) (SysStart path args)); [discriminate|].
  intros H. injection H as <- <-. done.
Qed.

(** What the node writes for its staking credentials, given its flags. *)
Definition staking_written (nodeConfig : Config)
    (configFlags : gmap string any) (staking : list syscall) : Prop :=
  (usesEphemeralCert P configFlags = true ∧ staking = [])
  ∨ (usesEphemeralCert P configFlags = false ∧
     ∃ certFname keyFname,
       as_string (configFlags !! StakingCertPathKey P) = Some certFname ∧
       as_string (configFlags !! StakingKeyPathKey P) = Some keyFname ∧
       staking = createFile_calls P certFname (Cert nodeConfig)
                 ++ createFile_calls P keyFname (PrivateKey nodeConfig)).

(** Everything a successful [AddNode] did. *)
Lemma AddNode_Ok_inv nodeConfig s node s' :
  AddNode P nodeConfig s = (Ok node, s') →
  ∃ configFlags configDir configBytes genesisFname avalanchegoPath staking evs,
    let configFilePath := path_Join P [configDir; "config.json"] in
    let cConfigFilePath := path_Join P [configDir; "C"; "config.json"] in
    id node = (if is_empty (Name nodeConfig)
               then fmt_Sprint (nextIntNodeID (net s))
               else Name nodeConfig) ∧
    nodes (net s') = <[id node := node]> (nodes (net s)) ∧
    json_Unmarshal P (ConfigFlags nodeConfig) (coreConfigFlags (net s) ∪ ∅)
      = inl configFlags ∧
    as_string (configFlags !! ChainConfigDirKey P) = Some configDir ∧
    json_Marshal P configFlags = inl configBytes ∧
    as_string (configFlags !! GenesisConfigFileKey P) = Some genesisFname ∧
    staking_written nodeConfig configFlags staking ∧
    trace s' = trace s ++ evs
               ++ [{| call := SysStart avalanchegoPath
                                [configFileFlag P configFilePath];
                      failure := None |}] ∧
    map call evs
      = createFile_calls P configFilePath configBytes
        ++ createFile_calls P cConfigFilePath (cChainConfig (net s))
        ++ createFile_calls P genesisFname (genesis (net s))
        ++ staking ∧
    Forall went_through evs ∧
    cmd node = {| Path := avalanchegoPath;
                  Args := [configFileFlag P configFilePath];
                  Process := length (trace s ++ evs) |}.
Proof.
  unfold AddNode. intros H.
  rewrite bind_get_net, bind_set_nextIntNodeID in H.
  set (sc := (set_nextIntNodeID (wrap64 (nextIntNodeID (net s) + 1)) s).2) in H.
  step H as nodeID s1 Hname.
  assert (nodeID = (if is_empty (Name nodeConfig)
                    then fmt_Sprint (nextIntNodeID (net s))
                    else Name nodeConfig) ∧ s1 = sc) as [HnodeID ->].
  { destruct (is_empty (Name nodeConfig)).
    - by injection Hname as <- <-.
    - destruct (nodes (net s) !! Name nodeConfig); [discriminate|].
      by injection Hname as <- <-. }
  step H as u2 s2 Htype. apply return_if_Ok_inv in Htype as [_ ->].
  step H as u3 s3 Hempty. apply return_if_Ok_inv in Hempty as [_ ->].
  step H as configFlags s4 Hflags.
  apply wrap_Ok_inv, lift_ext_Ok_inv in Hflags as [Hflags ->].
  destruct (as_string (configFlags !! ChainConfigDirKey P))
    as [configDir|] eqn:Hdir; [|discriminate].
  step H as configBytes s5 Hbytes.
  apply wrap_Ok_inv, lift_ext_Ok_inv in Hbytes as [Hbytes ->].
  step H as u6 s6 Hf1.
  apply wrap_Ok_inv, createFile_Ok in Hf1 as (evs1 & Hn1 & Ht1 & Hc1 & Hw1).
  step H as u7 s7 Hf2.
  apply wrap_Ok_inv, createFile_Ok in Hf2 as (evs2 & Hn2 & Ht2 & Hc2 & Hw2).
  destruct (as_string (configFlags !! GenesisConfigFileKey P))
    as [genesisFname|] eqn:Hgen; [|discriminate].
  step H as u8 s8 Hf3.
  apply wrap_Ok_inv, createFile_Ok in Hf3 as (evs3 & Hn3 & Ht3 & Hc3 & Hw3).
  step H as u9 s9 Hstaking.
  assert (∃ staking evs4, staking_written nodeConfig configFlags staking ∧
            net s9 = net s8 ∧ trace s9 = trace s8 ++ evs4 ∧
            map call evs4 = staking ∧ Forall went_through evs4)
    as (staking & evs4 & Hst & Hn4 & Ht4 & Hc4 & Hw4).
  { destruct (usesEphemeralCert P configFlags) eqn:Heph.
    - injection Hstaking as _ <-. exists [], []. repeat split; try done.
      + by left.
      + by rewrite app_nil_r.
    - apply stakingFiles_Ok in Hstaking
        as (certFname & keyFname & evs4 & Hcert & Hkey & Hn & Ht & Hc & Hw).
      exists (map call evs4), evs4. repeat split; try done.
      right. split; [done|]. exists certFname, keyFname. by rewrite Hc. }
  destruct (as_string (configFlags !! PublicIPKey P))
    as [nodeIP|] eqn:Hip; [|discriminate].
  destruct (as_float64 (configFlags !! HTTPPortKey P))
    as [nodePortF|] eqn:Hport; [|discriminate].
  destruct (Type_ nodeConfig) as [| |t| |] eqn:Hty; try discriminate.
  destruct (binMap (net s) !! nodeType_of_float64 P t)
    as [avalanchegoPath|] eqn:Hbin; [|discriminate].
  step H as c s10 Hstart.
  apply wrap_Ok_inv, cmd_Start_Ok in Hstart as (-> & Hn5 & Ht5).
  rewrite bind_get_net, bind_set_nodes in H.
  injection H as <- <-.
  exists configFlags, configDir, configBytes, genesisFname, avalanchegoPath,
    staking, (evs1 ++ evs2 ++ evs3 ++ evs4).
  simpl. repeat split; try done.
  - by rewrite Hn5, Hn4, Hn3, Hn2, Hn1.
  - rewrite Ht5, Ht4, Ht3, Ht2, Ht1. by rewrite <- !app_assoc.
  - rewrite !map_app, Hc1, Hc2, Hc3, Hc4. done.
  - repeat (apply Forall_app; split; try done).
  - rewrite Ht4, Ht3, Ht2, Ht1. by rewrite <- !app_assoc.
Qed.

(** *** [RemoveNode] *)

(** What a [RemoveNode] of [node] asks of the outside world. *)
Definition removal_calls (node : localNode) : list syscall :=
  [SysWsClose (client node); SysSignal (Process (cmd node)) SIGTERM].

(** The answer of the environment to the SIGTERM that [RemoveNode] sends to
    [node] from state [s]. *)
Definition signal_outcome (s : State) (node : localNode) : option string :=
  os_outcome P
    (trace s ++ [{| call := SysWsClose (client node); failure := None |}])
    (SysSignal (Process (cmd node)) SIGTERM).

Definition removal_events (s : State) (node : localNode) : list event :=
  [{| call := SysWsClose (client node); failure := None |};
   {| call := SysSignal (Process (cmd node)) SIGTERM;
      failure := signal_outcome s node |}].

Lemma RemoveNode_absent nodeID s :
  nodes (net s) !! nodeID = None →
  RemoveNode P nodeID s = (Err (ErrNotFound nodeID), s).
Proof. intros H. unfold RemoveNode. rewrite bind_get_net. by rewrite H. Qed.

Lemma RemoveNode_present nodeID s node :
  nodes (net s) !! nodeID = Some node →
  RemoveNode P nodeID s
  = (match signal_outcome s node with
     | None => Ok tt
     | Some msg => Err (ErrSignal (id node) (ErrExternal msg))
     end,
     log {| call := SysSignal (Process (cmd node)) SIGTERM;
            failure := signal_outcome s node |}
       (log {| call := SysWsClose (client node); failure := None |}
          (set_nodes (delete nodeID (nodes (net s))) s).2)).
Proof.
  intros H. unfold RemoveNode. rewrite bind_get_net, H, bind_set_nodes.
  unfold bind, act, wrap, sys, signal_outcome. simpl.
  by destruct (os_outcome P _ _).
Qed.

Lemma RemoveNode_present_state nodeID s node :
  nodes (net s) !! nodeID = Some node →
  nodes (net (RemoveNode P nodeID s).2) = delete nodeID (nodes (net s)) ∧
  trace (RemoveNode P nodeID s).2 = trace s ++ removal_events s node.
Proof.
  intros H. rewrite (RemoveNode_present _ _ _ H). simpl.
  by rewrite <- app_assoc.
Qed.

Lemma RemoveNode_no_panic nodeID s msg :
  (RemoveNode P nodeID s).1 ≠ Panic msg.
Proof.
  destruct (nodes (net s) !! nodeID) as [node|] eqn:H.
  - rewrite (RemoveNode_present _ _ _ H). simpl.
    by destruct (signal_outcome s node).
  - by rewrite (RemoveNode_absent _ _ H).
Qed.


(** *** The invariant *)

Lemma pretty_N_go_nonempty (x : N) (acc : string) :
  acc ≠ "" → pretty_N_go x acc ≠ "".
Proof.
  revert acc. induction (N.lt_wf_0 x) as [x _ IH]. intros acc Hacc.
  destruct (decide (x = 0%N)) as [->|Hx].
  - by rewrite pretty_N_go_0.
  - rewrite pretty_N_go_step by lia. apply IH; [|done].
    apply N.div_lt; lia.
Qed.

Lemma fmt_Sprint_nonempty (n : N) : fmt_Sprint n ≠ "".
Proof.
  unfold fmt_Sprint, pretty, pretty_N.
  destruct (decide (n = 0%N)) as [->|Hn]; [done|].
  rewrite pretty_N_go_step by lia. by apply pretty_N_go_nonempty.
Qed.

Lemma emptyNetwork_well_formed networkConfig bins :
  well_formed (emptyNetwork networkConfig bins).
Proof. intros k node H. simpl in H. by rewrite lookup_empty in H. Qed.

Lemma AddNode_well_formed nodeConfig s :
  well_formed (net s) → well_formed (net (AddNode P nodeConfig s).2).
Proof.
  intros Hwf. pose proof (AddNode_on_failure nodeConfig s) as Hfail.
  destruct (AddNode P nodeConfig s) as [[node|e|msg] s'] eqn:Hadd; simpl in *.
  - apply AddNode_Ok_inv in Hadd
      as (? & ? & ? & ? & ? & ? & ? & Hid & Hnodes & _).
    intros k node' Hk. rewrite Hnodes in Hk.
    destruct (decide (id node = k)) as [<-|Hne].
    + rewrite lookup_insert_eq in Hk. injection Hk as <-. split; [|done].
      rewrite Hid. unfold is_empty. case_bool_decide; [|done].
      apply fmt_Sprint_nonempty.
    + rewrite lookup_insert_ne in Hk by done. by apply Hwf.
  - intros k node' Hk. rewrite Hfail in Hk. by apply Hwf.
  - intros k node' Hk. rewrite Hfail in Hk. by apply Hwf.
Qed.

Lemma RemoveNode_well_formed nodeID s :
  well_formed (net s) → well_formed (net (RemoveNode P nodeID s).2).
Proof.
  intros Hwf. destruct (nodes (net s) !! nodeID) as [node|] eqn:H.
  - intros k node' Hk.
    rewrite (proj1 (RemoveNode_present_state _ _ _ H)) in Hk.
    apply lookup_delete_Some in Hk as [_ Hk]. by apply Hwf.
  - by rewrite (RemoveNode_absent _ _ H).
Qed.

(** *** The claims about [AddNode] and [RemoveNode] *)

(** C3. Adding a node whose config names a node already in the mapping fails
    with the repeated-name error, and leaves the mapping (and the outside
    world) exactly as they were. The network is any the manager can be in:
    one whose mapping satisfies its invariant. *)
Theorem AddNode_name_conflict nodeConfig s :
  well_formed (net s) →
  is_Some (nodes (net s) !! Name nodeConfig) →
  ∃ s', AddNode P nodeConfig s
        = (Err (ErrRepeatedName (Name nodeConfig)
                  (fmt_Sprint (nextIntNodeID (net s)))), s') ∧
        nodes (net s') = nodes (net s) ∧
        trace s' = trace s.
Proof.
  intros Hwf [node Hnode].
  assert (is_empty (Name nodeConfig) = false) as Hname.
  { unfold is_empty. case_bool_decide as Hn; [|done].
    by destruct (Hwf _ _ Hnode). }
  unfold AddNode. rewrite bind_get_net, bind_set_nextIntNodeID.
  unfold bind at 1. rewrite Hname, Hnode. simpl. eauto.
Qed.

(** C10. Whatever makes [AddNode] return an error (or panic), the mapping is
    the one it started with. The handle is recorded by the last step only:
    when [AddNode] succeeds the mapping is the old one with the new handle
    under its name, and the last event is the start of the process. The
    counter is incremented whatever the outcome. *)
Theorem AddNode_records_last nodeConfig s :
  match AddNode P nodeConfig s with
  | (Ok node, s') =>
      nodes (net s') = <[id node := node]> (nodes (net s)) ∧
      ∃ evs, trace s' = trace s ++ evs
                        ++ [{| call := SysStart (Path (cmd node)) (Args (cmd node));
                               failure := None |}]
  | (Err _, s') | (Panic _, s') => nodes (net s') = nodes (net s)
  end
  ∧ nextIntNodeID (net (AddNode P nodeConfig s).2)
    = wrap64 (nextIntNodeID (net s) + 1).
Proof.
  split; [|apply AddNode_counter].
  pose proof (AddNode_on_failure nodeConfig s) as Hfail.
  destruct (AddNode P nodeConfig s) as [[node|e|msg] s'] eqn:Hadd;
    simpl in *; try done.
  apply AddNode_Ok_inv in Hadd
    as (fl & dir & bytes & gen & bin & staking & evs & _ & Hnodes & _ & _ & _
        & _ & _ & Htrace & _ & _ & Hcmd).
  split; [done|]. exists evs. by rewrite Htrace, Hcmd.
Qed.


(** C9. A successful [AddNode] has, in this order and with nothing in
    between: written the main config file (all the flags, marshalled), the
    C-chain config file, the genesis file and, unless the flags ask for an
    ephemeral certificate, the staking certificate and key; then started the
    binary. Every write went through before the start, and the binary got
    one argument, the flag that carries the path of the main config file. *)
Theorem AddNode_materializes_then_spawns nodeConfig s node s' :
  AddNode P nodeConfig s = (Ok node, s') →
  ∃ configFlags configDir configBytes genesisFname avalanchegoPath staking files,
    let configFilePath := path_Join P [configDir; "config.json"] in
    let cConfigFilePath := path_Join P [configDir; "C"; "config.json"] in
    json_Unmarshal P (ConfigFlags nodeConfig) (coreConfigFlags (net s) ∪ ∅)
      = inl configFlags ∧
    as_string (configFlags !! ChainConfigDirKey P) = Some configDir ∧
    json_Marshal P configFlags = inl configBytes ∧
    as_string (configFlags !! GenesisConfigFileKey P) = Some genesisFname ∧
    staking_written nodeConfig configFlags staking ∧
    map call files
      = createFile_calls P configFilePath configBytes
        ++ createFile_calls P cConfigFilePath (cChainConfig (net s))
        ++ createFile_calls P genesisFname (genesis (net s))
        ++ staking ∧
    Forall went_through files ∧
    trace s' = trace s ++ files
               ++ [{| call := SysStart avalanchegoPath
                                [configFileFlag P configFilePath];
                      failure := None |}] ∧
    Path (cmd node) = avalanchegoPath ∧
    Args (cmd node) = [configFileFlag P configFilePath].
Proof.
  intros Hadd.
  apply AddNode_Ok_inv in Hadd
    as (fl & dir & bytes & gen & bin & staking & evs & _ & _ & Hfl & Hdir
        & Hbytes & Hgen & Hst & Htrace & Hcalls & Hthrough & Hcmd).
  exists fl, dir, bytes, gen, bin, staking, evs. simpl.
  rewrite Hcmd. by repeat split.
Qed.

(** C8. Whenever [RemoveNode] gets as far as signalling (the name is in the
    mapping), it does two things to the outside world and nothing else: it
    closes the node's websocket client, and after that it sends SIGTERM to
    the process. It does not wait for the process. The name is gone from the
    mapping whether or not the signal was delivered, and the call succeeds
    exactly when it was. *)
Theorem RemoveNode_closes_then_signals nodeID s r s' :
  RemoveNode P nodeID s = (r, s') →
  r ≠ Err (ErrNotFound nodeID) →
  ∃ node outcome,
    nodes (net s) !! nodeID = Some node ∧
    trace s' = trace s
               ++ [{| call := SysWsClose (client node); failure := None |};
                   {| call := SysSignal (Process (cmd node)) SIGTERM;
                      failure := outcome |}] ∧
    nodes (net s') = delete nodeID (nodes (net s)) ∧
    (r = Ok tt ↔ outcome = None).
Proof.
  intros Hrun Hr.
  destruct (nodes (net s) !! nodeID) as [node|] eqn:Hnode.
  - rewrite (RemoveNode_present _ _ _ Hnode) in Hrun.
    injection Hrun as <- <-.
    exists node, (signal_outcome s node). simpl.
    repeat split; try done.
    + by rewrite <- app_assoc.
    + by destruct (signal_outcome s node).
    + by intros ->.
  - rewrite (RemoveNode_absent _ _ Hnode) in Hrun.
    by injection Hrun as <- <-.
Qed.

(** C7, as the code has it. [RemoveNode] fails with the not-found error
    exactly when the name is absent. For a node that is in the mapping (as
    it is after a successful [AddNode]), a first [RemoveNode] never fails
    with not-found: it returns nil when the SIGTERM is delivered and the
    signalling error otherwise; either way the name is gone, and a second
    [RemoveNode] of the same name fails with not-found. *)
Theorem RemoveNode_not_found_iff nodeID s :
  ((RemoveNode P nodeID s).1 = Err (ErrNotFound nodeID)
   ↔ nodes (net s) !! nodeID = None)
  ∧ (∀ nodeConfig s0 node,
       AddNode P nodeConfig s0 = (Ok node, s) →
       nodes (net s) !! id node = Some node)
  ∧ (∀ node,
       nodes (net s) !! nodeID = Some node →
       (RemoveNode P nodeID s).1
       = match signal_outcome s node with
         | None => Ok tt
         | Some msg => Err (ErrSignal (id node) (ErrExternal msg))
         end
       ∧ (RemoveNode P nodeID (RemoveNode P nodeID s).2).1
         = Err (ErrNotFound nodeID)).
Proof.
  split; [|split].
  - split.
    + intros Hr. destruct (nodes (net s) !! nodeID) as [node|] eqn:Hnode;
        [|done].
      rewrite (RemoveNode_present _ _ _ Hnode) in Hr. simpl in Hr.
      by destruct (signal_outcome s node).
    + intros Hnode. by rewrite (RemoveNode_absent _ _ Hnode).
  - intros nodeConfig s0 node Hadd.
    apply AddNode_Ok_inv in Hadd
      as (? & ? & ? & ? & ? & ? & ? & _ & Hnodes & _).
    rewrite Hnodes. apply lookup_insert_eq.
  - intros node Hnode. split.
    + by rewrite (RemoveNode_present _ _ _ Hnode).
    + rewrite RemoveNode_absent; [done|].
      rewrite (proj1 (RemoveNode_present_state _ _ _ Hnode)).
      apply lookup_delete_eq.
Qed.


(** *** [Stop] *)

(** What removing [k] from the mapping [m] asks of the outside world. *)
Definition calls_of (m : gmap string localNode) (k : string) : list syscall :=
  match m !! k with
  | Some node => removal_calls node
  | None => []
  end.

(** [m] without the keys of [ks]. *)
Definition without (ks : list string) (m : gmap string localNode)
    : gmap string localNode :=
  foldr delete m ks.

Lemma lookup_without ks m k :
  without ks m !! k = if bool_decide (k ∈ ks) then None else m !! k.
Proof.
  induction ks as [|k0 ks IH]; simpl.
  - done.
  - destruct (decide (k0 = k)) as [->|Hne].
    + rewrite lookup_delete_eq. rewrite bool_decide_eq_true_2; [done|].
      apply list_elem_of_here.
    + rewrite lookup_delete_ne by done. rewrite IH.
      destruct (decide (k ∈ ks)) as [Hin|Hnin].
      * rewrite !bool_decide_eq_true_2; [done| |done].
        by apply list_elem_of_further.
      * rewrite !bool_decide_eq_false_2; [done| |done].
        intros [?|?]%elem_of_cons; congruence.
Qed.

Lemma calls_of_delete k m ks :
  k ∉ ks → flat_map (calls_of (delete k m)) ks = flat_map (calls_of m) ks.
Proof.
  induction ks as [|k0 ks IH]; intros Hk; [done|].
  apply not_elem_of_cons in Hk as [Hne Hk]. simpl. rewrite (IH Hk).
  unfold calls_of at 1 3. by rewrite lookup_delete_ne.
Qed.

Lemma Stop_cons_absent nodeID rest s :
  nodes (net s) !! nodeID = None →
  Stop P (nodeID :: rest) s = Stop P rest s.
Proof.
  intros H. unfold Stop. simpl. rewrite bind_get_net. by rewrite H.
Qed.

Lemma Stop_cons_present nodeID rest s node :
  nodes (net s) !! nodeID = Some node →
  Stop P (nodeID :: rest) s
  = match RemoveNode P nodeID s with
    | (Ok _, s1) => Stop P rest s1
    | (Err e, s1) => (Err e, s1)
    | (Panic msg, s1) => (Panic msg, s1)
    end.
Proof.
  intros H. unfold Stop. simpl. rewrite bind_get_net. by rewrite H.
Qed.

(** An event that reports no error. *)
Definition delivered (ev : event) : Prop := failure ev = None.

(** How a run of [Stop] over the keys [order] ends: it has removed the keys
    of [visited], a prefix of [order], and nothing else; an error is the
    signalling error of the last key it visited, and nothing failed before
    it. *)
Lemma Stop_run order s :
  NoDup order →
  ∃ visited rest evs,
    order = visited ++ rest ∧
    trace (Stop P order s).2 = trace s ++ evs ∧
    map call evs = flat_map (calls_of (nodes (net s))) visited ∧
    nodes (net (Stop P order s).2) = without visited (nodes (net s)) ∧
    match (Stop P order s).1 with
    | Ok _ => rest = [] ∧ Forall delivered evs
    | Err e =>
      ∃ pre k node cause evs0,
        visited = pre ++ [k] ∧ nodes (net s) !! k = Some node ∧
        e = ErrSignal (id node) (ErrExternal cause) ∧
        evs = evs0 ++ [{| call := SysSignal (Process (cmd node)) SIGTERM;
                          failure := Some cause |}] ∧
        Forall delivered evs0
    | Panic _ => False
    end.
Proof.
  revert s. induction order as [|k order IH]; intros s Hnd.
  - exists [], [], []. simpl. rewrite app_nil_r. by repeat split.
  - apply NoDup_cons in Hnd as [Hk Hnd].
    destruct (nodes (net s) !! k) as [node|] eqn:Hnode.
    + rewrite (Stop_cons_present _ _ _ _ Hnode).
      rewrite (RemoveNode_present _ _ _ Hnode).
      set (s1 := log _ (log _ _)).
      assert (nodes (net s1) = delete k (nodes (net s))) as Hn1 by done.
      assert (trace s1 = trace s ++ removal_events s node) as Ht1.
      { subst s1. simpl. by rewrite <- app_assoc. }
      unfold removal_events in Ht1.
      destruct (signal_outcome s node) as [msg|] eqn:Hsig.
      * exists [k], order, (removal_events s node). simpl.
        unfold removal_events. rewrite Hsig.
        repeat split; try done.
        -- unfold calls_of. rewrite Hnode. by rewrite app_nil_r.
        -- exists [], k, node, msg,
             [{| call := SysWsClose (client node); failure := None |}].
           repeat split; try done.
           by apply Forall_cons.
      * destruct (IH s1 Hnd) as (visited & rest & evs & -> & Ht & Hc & Hn & Hr).
        exists (k :: visited), rest, (removal_events s node ++ evs).
        unfold removal_events. rewrite Hsig.
        repeat split.
        -- rewrite Ht, Ht1. by rewrite <- app_assoc.
        -- rewrite map_app, Hc. simpl. unfold calls_of at 2. rewrite Hnode.
           simpl. do 2 f_equal. apply calls_of_delete.
           intros Hin. apply Hk. apply elem_of_app. by left.
        -- rewrite Hn, Hn1. apply map_eq. intros k'.
           rewrite !lookup_without. simpl.
           destruct (decide (k = k')) as [->|Hne].
           ++ rewrite lookup_delete_eq.
              rewrite (bool_decide_eq_true_2 (k' ∈ k' :: visited));
                [by case_bool_decide | apply list_elem_of_here].
           ++ rewrite lookup_delete_ne by done.
              destruct (decide (k' ∈ visited)) as [Hin|Hnin].
              ** rewrite !bool_decide_eq_true_2; [done| |done].
                 by apply list_elem_of_further.
              ** rewrite !bool_decide_eq_false_2; [done| |done].
                 intros [?|?]%elem_of_cons; congruence.
        -- destruct (Stop P (visited ++ rest) s1).1 as [u|e|msg]; [| |done].
           ++ destruct Hr as [-> Hall]. split; [done|].
              by repeat (apply Forall_cons; split; [done|]).
           ++ destruct Hr
                as (pre & k' & node' & cause & evs0 & -> & Hnode' & -> & -> & Hall).
              rewrite Hn1 in Hnode'.
              apply lookup_delete_Some in Hnode' as [_ ?].
              exists (k :: pre), k', node', cause,
                ([{| call := SysWsClose (client node); failure := None |};
                  {| call := SysSignal (Process (cmd node)) SIGTERM;
                     failure := None |}] ++ evs0).
              repeat split; try done.
              by repeat (apply Forall_cons; split; [done|]).
    + rewrite (Stop_cons_absent _ _ _ Hnode).
      destruct (IH s Hnd) as (visited & rest & evs & -> & Ht & Hc & Hn & Hr).
      exists (k :: visited), rest, evs. repeat split; try done.
      * simpl. unfold calls_of at 1. by rewrite Hnode.
      * rewrite Hn. simpl. symmetry. apply delete_id.
        rewrite lookup_without. by case_bool_decide.
      * destruct (Stop P (visited ++ rest) s).1 as [u|e|msg]; [done| |done].
        destruct Hr
          as (pre & k' & node' & cause & evs0 & -> & Hnode' & -> & -> & Hall).
        exists (k :: pre), k', node', cause, evs0. by repeat split.
Qed.

(** C4, as the code has it. [Stop] ranges over the current node names and
    calls [RemoveNode] on each, until one fails: it then returns that error,
    the first and only one, at once. The nodes it had not reached yet are
    not attempted: they stay in the mapping, and nothing is closed or
    signalled for them. When no [RemoveNode] fails, every node has been
    removed and [Stop] returns nil. *)
Theorem Stop_fails_fast order s :
  NoDup order →
  (∀ k, k ∈ order ↔ is_Some (nodes (net s) !! k)) →
  ∃ evs,
    trace (Stop P order s).2 = trace s ++ evs ∧
    match (Stop P order s).1 with
    | Ok _ =>
      nodes (net (Stop P order s).2) = ∅ ∧
      map call evs = flat_map (calls_of (nodes (net s))) order ∧
      Forall delivered evs
    | Err e =>
      ∃ visited k node cause rest evs0,
        order = visited ++ k :: rest ∧
        nodes (net s) !! k = Some node ∧
        e = ErrSignal (id node) (ErrExternal cause) ∧
        map call evs = flat_map (calls_of (nodes (net s))) (visited ++ [k]) ∧
        evs = evs0 ++ [{| call := SysSignal (Process (cmd node)) SIGTERM;
                          failure := Some cause |}] ∧
        Forall delivered evs0 ∧
        (∀ k', k' ∈ visited ++ [k] → nodes (net (Stop P order s).2) !! k' = None) ∧
        (∀ k', k' ∈ rest →
           nodes (net (Stop P order s).2) !! k' = nodes (net s) !! k' ∧
           is_Some (nodes (net s) !! k'))
    | Panic _ => False
    end.
Proof.
  intros Hnd Hkeys.
  destruct (Stop_run order s Hnd)
    as (visited & rest & evs & Horder & Ht & Hc & Hn & Hr).
  exists evs. split; [done|].
  destruct (Stop P order s).1 as [u|e|msg]; [| |done].
  - destruct Hr as [-> Hall]. rewrite app_nil_r in Horder. subst visited.
    repeat split; try done.
    rewrite Hn. apply map_eq. intros k. rewrite lookup_without, lookup_empty.
    case_bool_decide as Hin; [done|].
    destruct (nodes (net s) !! k) eqn:Hk; [|done].
    exfalso. apply Hin, Hkeys. by rewrite Hk.
  - destruct Hr as (pre & k & node & cause & evs0 & -> & Hnode & -> & -> & Hall).
    exists pre, k, node, cause, rest, evs0.
    rewrite <- app_assoc in Horder. simpl in Horder.
    split; [done|]. split; [done|]. split; [done|]. split; [done|].
    split; [done|]. split; [done|]. split.
    + intros k' Hin. rewrite Hn, lookup_without.
      by rewrite bool_decide_eq_true_2.
    + intros k' Hin. split.
      * rewrite Hn, lookup_without. rewrite bool_decide_eq_false_2; [done|].
        intros Hin'. subst order.
        apply NoDup_app in Hnd as (_ & Hdisj & Hnd).
        apply NoDup_cons in Hnd as [Hk _].
        apply elem_of_app in Hin' as [Hpre|Hk'%list_elem_of_singleton].
        -- apply (Hdisj k' Hpre). by apply list_elem_of_further.
        -- by subst k'.
      * apply Hkeys. subst order. apply elem_of_app. right.
        by apply list_elem_of_further.
Qed.


(** *** Generated names *)

Lemma preserves_RemoveNode_counter nodeID :
  preserves nextIntNodeID (RemoveNode P nodeID).
Proof. unfold RemoveNode. frame. Qed.

Lemma preserves_Stop_counter order : preserves nextIntNodeID (Stop P order).
Proof.
  unfold Stop. induction order as [|k order IH]; simpl; [done|].
  apply preserves_bind; [done|]. intros net0.
  destruct (nodes net0 !! k); [|done].
  apply preserves_bind; [apply preserves_RemoveNode_counter|done].
Qed.

Lemma run_op_counter o s :
  nextIntNodeID (net (run_op P o s))
  = match o with
    | OpAddNode _ => wrap64 (nextIntNodeID (net s) + 1)
    | _ => nextIntNodeID (net s)
    end.
Proof.
  destruct o; simpl.
  - apply AddNode_counter.
  - unfold GetNode. rewrite bind_get_net. by destruct (nodes (net s) !! nodeID).
  - done.
  - apply preserves_RemoveNode_counter.
  - apply preserves_Stop_counter.
Qed.

Lemma generated_Some nodeConfig s name :
  generated P nodeConfig s = Some name →
  name = fmt_Sprint (nextIntNodeID (net s)).
Proof.
  unfold generated.
  destruct (AddNode P nodeConfig s) as [[node|e|msg] s'] eqn:Hadd; try done.
  apply AddNode_Ok_inv in Hadd as (? & ? & ? & ? & ? & ? & ? & Hid & _).
  destruct (is_empty (Name nodeConfig)); [|done].
  intros [= <-]. done.
Qed.

(** The [i]-th call of [AddNode] in a run finds the counter [i] above where
    it started (as long as the [uint64] does not wrap), and the name it
    generates, if it generates one, is the numeral of that value. *)
Lemma adds_log_lookup ops s i k a :
  (nextIntNodeID (net s) + N.of_nat (length (adds_log P ops s)) ≤ 2 ^ 64)%N →
  adds_log P ops s !! i = Some (k, a) →
  k = (nextIntNodeID (net s) + N.of_nat i)%N ∧
  ∀ name, a = Some name → name = fmt_Sprint k.
Proof.
  revert s i. induction ops as [|o ops IH]; intros s i Hbound Hi; [done|].
  destruct o as [nodeConfig| | | |];
    try (apply (IH _ i) in Hi; [by rewrite run_op_counter in Hi|];
         by rewrite run_op_counter).
  simpl in Hi, Hbound. destruct i as [|i]; simpl in Hi.
  - injection Hi as <- <-. split; [lia|].
    intros name Hname. by apply generated_Some in Hname.
  - pose proof (lookup_lt_Some _ _ _ Hi) as Hlen.
    assert (wrap64 (nextIntNodeID (net s) + 1)
            = (nextIntNodeID (net s) + 1)%N) as Hwrap.
    { unfold wrap64. apply N.mod_small. lia. }
    apply IH in Hi.
    + rewrite AddNode_counter, Hwrap in Hi. destruct Hi as [-> Hi].
      split; [lia|done].
    + rewrite AddNode_counter, Hwrap. lia.
Qed.


(** A log whose [i]-th entry holds the counter value [c + i], and the numeral
    of that value when it holds a name. *)
Definition numbered (c : N) (l : list (N * option string)) : Prop :=
  ∀ i k a, l !! i = Some (k, a) →
           k = (c + N.of_nat i)%N ∧ ∀ name, a = Some name → name = fmt_Sprint k.

Lemma numbered_tail c r l : numbered c (r :: l) → numbered (c + 1) l.
Proof.
  intros H i k a Hi. destruct (H (S i) k a Hi) as [-> Hname].
  split; [lia|done].
Qed.

Lemma numbered_names_above c l name :
  numbered c l → name ∈ omap snd l →
  ∃ k, (c ≤ k)%N ∧ name = fmt_Sprint k.
Proof.
  intros H Hin. apply list_elem_of_omap in Hin as ([k a] & Hin & Ha).
  apply list_elem_of_lookup in Hin as [i Hi]. simpl in Ha.
  destruct (H i k a Hi) as [-> Hname].
  exists (c + N.of_nat i)%N. split; [lia|]. by apply Hname.
Qed.

Lemma numbered_NoDup c l : numbered c l → NoDup (omap snd l).
Proof.
  revert c. induction l as [|[k a] l IH]; intros c H; simpl.
  - apply NoDup_nil_2.
  - pose proof (numbered_tail _ _ _ H) as Htail.
    destruct a as [name|]; simpl; [|by apply (IH (c + 1)%N)].
    apply NoDup_cons. split; [|by apply (IH (c + 1)%N)].
    intros Hin.
    destruct (numbered_names_above _ _ _ Htail Hin) as (k' & Hk' & Hname).
    destruct (H 0 k (Some name) eq_refl) as [-> Hhead].
    rewrite (Hhead name eq_refl) in Hname.
    apply (inj pretty) in Hname. lia.
Qed.

Lemma numbered_consecutive c l :
  numbered c l → Forall (λ r, is_Some r.2) l →
  omap snd l = map (λ i, fmt_Sprint (c + N.of_nat i)) (seq 0 (length l)).
Proof.
  revert c. induction l as [|[k a] l IH]; intros c H Hall; [done|].
  apply Forall_cons in Hall as [[name Ha] Hall]. simpl in *. subst a.
  destruct (H 0 k (Some name) eq_refl) as [-> Hhead].
  rewrite (Hhead name eq_refl). f_equal.
  change (list_omap _ _ snd l) with (omap snd l).
  rewrite (IH (c + 1)%N (numbered_tail _ _ _ H) Hall).
  rewrite <- seq_shift, map_map. apply map_ext. intros i. f_equal. lia.
Qed.

(** C2, as the code has it. In any run of the manager's operations, the
    names generated for the successful [AddNode] calls whose config has no
    name are bare decimal numerals, with no prefix: the [i]-th call of
    [AddNode] of the run, named or not, successful or not, uses up the value
    [c + i] of the counter, and a generated name is the numeral of the value
    its call found. So the generated names are pairwise distinct, whatever
    else is interleaved; and they are consecutive, starting at the counter's
    value (1 in a new network), when every [AddNode] of the run generates
    one. The run stays below the end of the [uint64] range. *)
Theorem generated_names_numbered ops s :
  (nextIntNodeID (net s) + N.of_nat (length (adds_log P ops s)) ≤ 2 ^ 64)%N →
  numbered (nextIntNodeID (net s)) (adds_log P ops s)
  ∧ NoDup (generated_names P ops s)
  ∧ (Forall (λ r, is_Some r.2) (adds_log P ops s) →
     generated_names P ops s
     = map (λ i, fmt_Sprint (nextIntNodeID (net s) + N.of_nat i))
           (seq 0 (length (adds_log P ops s))))
  ∧ (Forall (λ r, is_Some r.2) (adds_log P ops s) →
     nextIntNodeID (net s) = 1%N →
     generated_names P ops s
     = map (λ i, fmt_Sprint (N.of_nat i)) (seq 1 (length (adds_log P ops s)))).
Proof.
  intros Hbound.
  assert (numbered (nextIntNodeID (net s)) (adds_log P ops s)) as Hnum.
  { intros i k a Hi. by apply (adds_log_lookup ops s i). }
  split; [done|]. split; [by apply (numbered_NoDup _ _ Hnum)|].
  split.
  - intros Hall. by apply numbered_consecutive.
  - intros Hall Hc. unfold generated_names.
    rewrite (numbered_consecutive _ _ Hnum Hall), Hc.
    rewrite <- seq_shift, map_map. apply map_ext. intros i. f_equal. lia.
Qed.

End ManagerFacts.


(** ** [waitNode] *)

Section WaitNodeFacts.

Context {W : Type}.
Variable IsBootstrapped : string → W → (bool * option string) * W.
Variable Now : W → Z.
Variable Sleep : Z → W → W.

Abbreviation pollRound := (pollRound IsBootstrapped Sleep).
Abbreviation waitLoop := (waitLoop IsBootstrapped Now Sleep).
Abbreviation world_after := (world_after IsBootstrapped Sleep).
Abbreviation all_bootstrapped := (all_bootstrapped IsBootstrapped).
Abbreviation healthy_round := (healthy_round IsBootstrapped Now Sleep).

(** A query counts as "up" only when it answers true without an error. *)
Lemma not_bootstrapped_false r : not_bootstrapped r = false ↔ r = (true, None).
Proof.
  destruct r as [[] [msg|]]; simpl; split; intros H; congruence.
Qed.

(** A round leaves [nodeIsUp] true exactly when the three chains are
    bootstrapped. *)
Lemma pollRound_up w : (pollRound w).1 = true ↔ all_bootstrapped w.
Proof.
  unfold Local.pollRound, Local.all_bootstrapped.
  destruct (IsBootstrapped "P" w) as [rP w1].
  destruct (IsBootstrapped "C" w1) as [rC w2].
  destruct (IsBootstrapped "X" w2) as [rX w3].
  pose proof (not_bootstrapped_false rP) as HP.
  pose proof (not_bootstrapped_false rC) as HC.
  pose proof (not_bootstrapped_false rX) as HX.
  destruct (not_bootstrapped rP), (not_bootstrapped rC),
    (not_bootstrapped rX); simpl; intuition congruence.
Qed.

Lemma world_after_S k w : world_after (S k) w = world_after k (pollRound w).2.
Proof. unfold Local.world_after. by rewrite Nat.iter_succ_r. Qed.

Lemma healthy_round_shift t0 w :
  (Now w - t0 ≤ timeout)%Z → ¬ all_bootstrapped w →
  (∃ k, healthy_round t0 w k) ↔ (∃ k, healthy_round t0 (pollRound w).2 k).
Proof.
  intros Hnow Hdown. split.
  - intros [[|k] [Htime Hup]]; [done|]. exists k. split.
    + intros j Hj. rewrite <- world_after_S. apply Htime. lia.
    + by rewrite <- world_after_S.
  - intros [k [Htime Hup]]. exists (S k). split.
    + intros [|j] Hj; [done|]. rewrite world_after_S. apply Htime. lia.
    + by rewrite world_after_S.
Qed.

(** What the loop returns, when it returns. *)
Lemma waitLoop_true fuel t0 w b w' :
  waitLoop fuel t0 false w = Some (b, w') →
  b = true ↔ ∃ k, healthy_round t0 w k.
Proof.
  revert w. induction fuel as [|fuel IH]; intros w; simpl;
    destruct (Now w - t0 <=? timeout)%Z eqn:Hguard; simpl; try done.
  - (* the timeout has elapsed *)
    intros [= <- <-]. split; [done|]. intros [k [Htime _]].
    specialize (Htime 0 ltac:(lia)). simpl in Htime. lia.
  - (* one more round *)
    apply Z.leb_le in Hguard.
    pose proof (pollRound_up w) as Hup.
    destruct (pollRound w) as [up w1] eqn:Hround. simpl in Hup.
    destruct up.
    + destruct fuel; simpl; intros [= <- <-]; (split; [intros _|done]);
        exists 0; (split; [intros j Hj; by replace j with 0 by lia|]);
        by apply Hup.
    + intros Hrest. rewrite (IH _ Hrest).
      rewrite (healthy_round_shift t0 w Hguard).
      * by rewrite Hround.
      * intros Hall. apply Hup in Hall. done.
  - intros [= <- <-]. split; [done|]. intros [k [Htime _]].
    apply Z.leb_gt in Hguard.
    specialize (Htime 0 ltac:(lia)). simpl in Htime. lia.
Qed.

(** A world in which time passes: every query takes at least a nanosecond,
    and a sleep does not turn the clock back. *)
Definition time_passes : Prop :=
  (∀ chain w, (Now w < Now (IsBootstrapped chain w).2)%Z) ∧
  (∀ w, (Now w ≤ Now (Sleep pollTime w))%Z).

Lemma pollRound_takes_time w :
  time_passes → (Now w < Now (pollRound w).2)%Z.
Proof.
  intros [Hquery Hsleep]. unfold Local.pollRound.
  pose proof (Hquery "P" w) as HP.
  destruct (IsBootstrapped "P" w) as [rP w1]. simpl in HP.
  destruct (not_bootstrapped rP); [done|].
  pose proof (Hquery "C" w1) as HC.
  destruct (IsBootstrapped "C" w1) as [rC w2]. simpl in HC.
  destruct (not_bootstrapped rC); simpl; [lia|].
  pose proof (Hquery "X" w2) as HX.
  destruct (IsBootstrapped "X" w2) as [rX w3]. simpl in HX.
  pose proof (Hsleep w3).
  destruct (not_bootstrapped rX); simpl; lia.
Qed.

(** With enough fuel the loop ends: a nanosecond's worth of rounds for each
    nanosecond left. *)
Lemma waitLoop_ends fuel t0 up w :
  time_passes →
  (timeout - (Now w - t0) < Z.of_nat fuel)%Z →
  is_Some (waitLoop fuel t0 up w).
Proof.
  intros Htime. revert up w. induction fuel as [|fuel IH]; intros up w Hfuel;
    simpl; destruct (negb up && (Now w - t0 <=? timeout)%Z) eqn:Hguard;
    try done.
  - apply andb_true_iff in Hguard as [_ Hguard%Z.leb_le]. lia.
  - pose proof (pollRound_takes_time w Htime) as Hstep.
    destruct (pollRound w) as [up' w1]. simpl in Hstep.
    apply IH. lia.
Qed.

(** C1, as the code has it. Whenever [waitNode] returns, it returns true
    exactly when some round it polled (one that started with at most a
    minute elapsed, as did every round before it) found P, C and X
    bootstrapped, each query answering true without an error: an error
    counts as an answer of false for its round, and the rounds go on. The
    minute is looked at when a round starts, and only then: the round that
    finds the node up may well end after the minute is over. The result is a
    boolean; no error comes out of it. And [waitNode] does return, as long
    as time passes. *)
Theorem waitNode_true_iff w :
  (∀ fuel b w',
     waitNode IsBootstrapped Now Sleep fuel w = Some (b, w') →
     b = true ↔ ∃ k, healthy_round (Now w) w k)
  ∧ (∀ w, (pollRound w).1 = true ↔ all_bootstrapped w)
  ∧ (time_passes →
     ∃ fuel b w', waitNode IsBootstrapped Now Sleep fuel w = Some (b, w')).
Proof.
  split; [|split].
  - intros fuel b w'. apply waitLoop_true.
  - apply pollRound_up.
  - intros Htime. exists (Z.to_nat (timeout + 1)).
    destruct (waitLoop_ends (Z.to_nat (timeout + 1)) (Now w) false w Htime)
      as [[b w'] Hrun].
    + unfold timeout, second. lia.
    + by exists b, w'.
Qed.

End WaitNodeFacts.

(** ** A concrete platform

    A small platform to run the manager on: the flag names are those of the
    node's [config] package, paths are joined with slashes, the JSON codec
    knows the two documents below, and the outcome of the system calls is
    left open. *)
Module Fixture.

Definition dq : string := String (Ascii.ascii_of_nat 34) "".

Definition quoted (s : string) : string := dq +:+ s +:+ dq.

Definition field (k v : string) : string := quoted k +:+ ":" +:+ v.

(** The flags of a node that generates its own certificate. *)
Definition ephemeralFlags : string :=
  "{" +:+ field "chain-config-dir" (quoted "/tmp/n1") +:+ ","
      +:+ field "genesis" (quoted "/tmp/n1/genesis.json") +:+ ","
      +:+ field "http-port" "9650" +:+ ","
      +:+ field "public-ip" (quoted "127.0.0.1") +:+ ","
      +:+ field "staking-ephemeral-cert-enabled" "true" +:+ "}".

Definition ephemeralMap : gmap string any :=
  <["chain-config-dir" := AString "/tmp/n1"]>
  (<["genesis" := AString "/tmp/n1/genesis.json"]>
  (<["http-port" := AFloat64 9650%float]>
  (<["public-ip" := AString "127.0.0.1"]>
  (<["staking-ephemeral-cert-enabled" := ABool true]> ∅)))).

(** The flags of a node whose certificate and key come with its config. *)
Definition stakingFlags : string :=
  "{" +:+ field "chain-config-dir" (quoted "/tmp/n2") +:+ ","
      +:+ field "genesis" (quoted "/tmp/n2/genesis.json") +:+ ","
      +:+ field "http-port" "9652" +:+ ","
      +:+ field "public-ip" (quoted "127.0.0.1") +:+ ","
      +:+ field "staking-tls-cert-file" (quoted "/tmp/n2/staker.crt") +:+ ","
      +:+ field "staking-tls-key-file" (quoted "/tmp/n2/staker.key") +:+ "}".

Definition stakingMap : gmap string any :=
  <["chain-config-dir" := AString "/tmp/n2"]>
  (<["genesis" := AString "/tmp/n2/genesis.json"]>
  (<["http-port" := AFloat64 9652%float]>
  (<["public-ip" := AString "127.0.0.1"]>
  (<["staking-tls-cert-file" := AString "/tmp/n2/staker.crt"]>
  (<["staking-tls-key-file" := AString "/tmp/n2/staker.key"]> ∅))))).

(** Decoding into a map keeps the keys the document does not mention. *)
Definition unmarshal (text : string) (m : gmap string any)
    : gmap string any + string :=
  if bool_decide (text = ephemeralFlags) then inl (ephemeralMap ∪ m)
  else if bool_decide (text = stakingFlags) then inl (stakingMap ∪ m)
  else inr "unexpected end of JSON input".

Definition marshal (m : gmap string any) : string + string :=
  match m !! "staking-tls-cert-file" with
  | None => inl ephemeralFlags
  | Some _ => inl stakingFlags
  end.

Fixpoint join (elems : list string) : string :=
  match elems with
  | [] => ""
  | [e] => e
  | e :: rest => e +:+ "/" +:+ join rest
  end.

(** The text before the last slash, if there is a slash. *)
Fixpoint before_last_slash (s : string) : option string :=
  match s with
  | EmptyString => None
  | String c rest =>
    match before_last_slash rest with
    | Some d => Some (String c d)
    | None => if Ascii.eqb c (Ascii.ascii_of_nat 47) then Some "" else None
    end
  end.

Definition dir (fname : string) : string :=
  match before_last_slash fname with
  | Some EmptyString => "/"
  | Some d => d
  | None => "."
  end.

Definition to_int (f : float) : Z :=
  if PrimFloat.eqb f 9650 then 9650
  else if PrimFloat.eqb f 9652 then 9652
  else if PrimFloat.eqb f 1 then 1
  else 0.

Definition platform (os : list event → syscall → option string) : Platform :=
  {| json_Unmarshal := unmarshal;
     json_Marshal := marshal;
     path_Join := join;
     path_Dir := dir;
     uint_of_float64 := to_int;
     nodeType_of_float64 := to_int;
     Validate := λ _, None;
     ChainConfigDirKey := "chain-config-dir";
     GenesisConfigFileKey := "genesis";
     StakingEphemeralCertEnabledKey := "staking-ephemeral-cert-enabled";
     StakingCertPathKey := "staking-tls-cert-file";
     StakingKeyPathKey := "staking-tls-key-file";
     PublicIPKey := "public-ip";
     HTTPPortKey := "http-port";
     ConfigFileKey := "config-file";
     os_outcome := os |}.

(** Every system call succeeds. *)
Definition calm : Platform := platform (λ _ _, None).

(** The processes are gone by the time they are signalled. *)
Definition gone : Platform :=
  platform (λ _ c, match c with
                   | SysSignal _ _ => Some "os: process already finished"
                   | _ => None
                   end).

(** The binary cannot be executed. *)
Definition noexec : Platform :=
  platform (λ _ c, match c with
                   | SysStart _ _ => Some "exec format error"
                   | _ => None
                   end).

Definition unnamed : Config :=
  {| Name := ""; Type_ := AFloat64 1%float; ConfigFlags := ephemeralFlags;
     Cert := ""; PrivateKey := "" |}.

Definition named (name : string) : Config :=
  {| Name := name; Type_ := AFloat64 1%float; ConfigFlags := ephemeralFlags;
     Cert := ""; PrivateKey := "" |}.

Definition staker : Config :=
  {| Name := "staker"; Type_ := AFloat64 1%float; ConfigFlags := stakingFlags;
     Cert := "CERT"; PrivateKey := "KEY" |}.

Definition bins : gmap Z string := {[ 1%Z := "/usr/bin/caminogo" ]}.

(** The network [NewNetwork] makes from a configuration without nodes. *)
Definition fresh : State :=
  {| net := emptyNetwork {| Genesis := "{}"; CChainConfig := "{}";
                            CoreConfigFlags := "{}"; NodeConfigs := [] |} bins;
     trace := [] |}.


(** The handles [AddNode] makes for [unnamed] and for [staker], started
    when the trace held 12 and 33 events. *)
Definition node1 : localNode :=
  {| id := "1";
     client := {| ipAddr := "127.0.0.1"; port := 9650;
                  requestTimeout := 20000000000 |};
     cmd := {| Path := "/usr/bin/caminogo";
               Args := ["--config-file=/tmp/n1/config.json"];
               Process := 12 |} |}.

Definition node2 : localNode :=
  {| id := "staker";
     client := {| ipAddr := "127.0.0.1"; port := 9652;
                  requestTimeout := 20000000000 |};
     cmd := {| Path := "/usr/bin/caminogo";
               Args := ["--config-file=/tmp/n2/config.json"];
               Process := 33 |} |}.

(** The handle of [staker] when it is the first node. *)
Definition node2' : localNode :=
  {| id := "staker";
     client := {| ipAddr := "127.0.0.1"; port := 9652;
                  requestTimeout := 20000000000 |};
     cmd := {| Path := "/usr/bin/caminogo";
               Args := ["--config-file=/tmp/n2/config.json"];
               Process := 20 |} |}.

(** A network of two nodes: [unnamed], then [staker]. *)
Definition two_nodes (P : Platform) : State :=
  (AddNode P staker (AddNode P unnamed fresh).2).2.

(** A client that adds a node, removes it, lists the names and adds
    another. *)
Definition session : list op :=
  [OpAddNode unnamed; OpRemoveNode "1"; OpGetNodesIDs ["1"]; OpAddNode unnamed].

(** A node seen through its info client: each query takes a second and
    reads the next answer of a script; when the script is over, the
    connection is refused. *)
Definition Node : Type := Z * list (bool * option string).

Definition refused : bool * option string := (false, Some "connection refused").

Definition query (chain : string) (w : Node) : (bool * option string) * Node :=
  match w.2 with
  | [] => (refused, (w.1 + second, []))
  | r :: rest => (r, (w.1 + second, rest))
  end%Z.

Definition clock (w : Node) : Z := w.1.

Definition sleep (d : Z) (w : Node) : Node := (w.1 + d, w.2)%Z.

(** P refuses the connection; then X lags behind; then all three are up. *)
Definition booting : Node :=
  (0%Z, [refused;
         (true, None); (true, None); (false, None);
         (true, None); (true, None); (true, None)]).

(** A node that never answers. *)
Definition dead : Node := (0%Z, []).

End Fixture.

Section Examples.

Import Fixture.

Example AddNode_unnamed_first :
  (AddNode calm unnamed fresh).1 = Ok node1.
Proof. vm_compute. reflexivity. Qed.

Example two_nodes_calm :
  nodes (net (two_nodes calm)) = <["1" := node1]> (<["staker" := node2]> ∅).
Proof. vm_compute. reflexivity. Qed.

Example two_nodes_gone :
  nodes (net (two_nodes gone)) = <["1" := node1]> (<["staker" := node2]> ∅).
Proof. vm_compute. reflexivity. Qed.

Lemma two_nodes_keys P :
  nodes (net (two_nodes P)) = <["1" := node1]> (<["staker" := node2]> ∅) →
  ∀ k, k ∈ ["1"; "staker"] ↔ is_Some (nodes (net (two_nodes P)) !! k).
Proof.
  intros -> k. rewrite <- elem_of_dom, !dom_insert_L, dom_empty_L.
  set_solver.
Qed.

(** A spawn that fails leaves the files behind and the counter incremented,
    and the mapping empty. *)
Example AddNode_noexec :
  let r := AddNode noexec unnamed fresh in
  r.1 = Err (ErrExec "/usr/bin/caminogo" "--config-file=/tmp/n1/config.json"
               "1" (ErrExternal "exec format error")) ∧
  nodes (net r.2) = ∅ ∧
  nextIntNodeID (net r.2) = 2%N ∧
  length (trace r.2) = 13.
Proof. vm_compute. done. Qed.

(** A config whose [Type] is not a number passes every check and every file
    write, and panics at the type assertion. *)
Example AddNode_panics :
  (AddNode calm {| Name := ""; Type_ := AString "camino";
                   ConfigFlags := ephemeralFlags; Cert := "";
                   PrivateKey := "" |} fresh).1
  = Panic "interface conversion: interface {} is not float64".
Proof. vm_compute. reflexivity. Qed.

(** C3 at work: a second node named "a". *)
Lemma AddNode_name_conflict_witness :
  let s1 := (AddNode calm (named "a") fresh).2 in
  ∃ s', AddNode calm (named "a") s1 = (Err (ErrRepeatedName "a" "2"), s') ∧
        nodes (net s') = nodes (net s1) ∧ trace s' = trace s1.
Proof.
  apply (AddNode_name_conflict calm (named "a")
           (AddNode calm (named "a") fresh).2).
  - apply AddNode_well_formed, emptyNetwork_well_formed.
  - vm_compute. eexists. reflexivity.
Defined.

(** The system calls of [AddNode] for a node with its own staking files. *)
Example AddNode_staker_calls :
  (AddNode calm staker fresh).1 = Ok node2' ∧
  map call (trace (AddNode calm staker fresh).2)
  = createFile_calls calm "/tmp/n2/config.json" stakingFlags
    ++ createFile_calls calm "/tmp/n2/C/config.json" "{}"
    ++ createFile_calls calm "/tmp/n2/genesis.json" "{}"
    ++ createFile_calls calm "/tmp/n2/staker.crt" "CERT"
    ++ createFile_calls calm "/tmp/n2/staker.key" "KEY"
    ++ [SysStart "/usr/bin/caminogo" ["--config-file=/tmp/n2/config.json"]].
Proof. split; vm_compute; reflexivity. Qed.

(** C9 at work: the same node. Its files are written, then the binary is
    started with its one argument. *)
Lemma AddNode_materializes_witness :
  ∃ files flag,
    trace (AddNode calm staker fresh).2
    = trace fresh ++ files
      ++ [{| call := SysStart "/usr/bin/caminogo" [flag]; failure := None |}] ∧
    Forall went_through files ∧
    Args (cmd node2') = [flag].
Proof.
  assert (AddNode calm staker fresh
          = (Ok node2', (AddNode calm staker fresh).2)) as Hadd.
  { rewrite (surjective_pairing (AddNode calm staker fresh)) at 1.
    apply (f_equal2 pair); [vm_compute; reflexivity | reflexivity]. }
  destruct (AddNode_materializes_then_spawns _ _ _ _ _ Hadd)
    as (fl & dir & bytes & gen & bin & staking & files & _ & _ & _ & _ & _
        & _ & Hthrough & Htrace & Hpath & Hargs).
  simpl in Hpath. subst bin. eauto.
Defined.

(** C8 at work: removing the only node. *)
Lemma RemoveNode_closes_then_signals_witness :
  let s1 := (AddNode calm unnamed fresh).2 in
  let run := RemoveNode calm "1" s1 in
  ∃ node outcome,
    nodes (net s1) !! "1" = Some node ∧
    trace run.2 = trace s1
                  ++ [{| call := SysWsClose (client node); failure := None |};
                      {| call := SysSignal (Process (cmd node)) SIGTERM;
                         failure := outcome |}] ∧
    nodes (net run.2) = delete "1" (nodes (net s1)) ∧
    (run.1 = Ok tt ↔ outcome = None).
Proof.
  apply (RemoveNode_closes_then_signals calm "1"
           (AddNode calm unnamed fresh).2).
  - apply surjective_pairing.
  - vm_compute. discriminate.
Defined.

(** C2 at work: two generated names with a removal in between. *)
Lemma generated_names_witness :
  NoDup (generated_names calm session fresh) ∧
  generated_names calm session fresh = ["1"; "2"].
Proof.
  destruct (generated_names_numbered calm session fresh)
    as (_ & Hnd & _ & Hnames).
  - by vm_compute.
  - split; [done|]. rewrite Hnames.
    + vm_compute. reflexivity.
    + vm_compute. repeat (apply Forall_cons; split; [by eexists|]).
      apply Forall_nil_2.
    + reflexivity.
Defined.

(** C4 at work: every signal is delivered, and both nodes are removed. *)
Lemma Stop_fails_fast_witness :
  nodes (net (Stop calm ["1"; "staker"] (two_nodes calm)).2) = ∅.
Proof.
  destruct (Stop_fails_fast calm ["1"; "staker"] (two_nodes calm))
    as (evs & _ & H).
  - apply (bool_decide_unpack _). vm_compute. exact I.
  - apply two_nodes_keys, two_nodes_calm.
  - assert ((Stop calm ["1"; "staker"] (two_nodes calm)).1 = Ok tt) as Hok
      by (vm_compute; reflexivity).
    rewrite Hok in H. by destruct H as [H _].
Defined.

(** C2 fails as stated: the name generated for the first node of a new
    network is "1", not "node1"; and after a node that came with a name,
    the first generated name is "2". *)
Lemma generated_names_not_prefixed :
  generated_names calm [OpAddNode unnamed] fresh = ["1"] ∧
  generated_names calm [OpAddNode unnamed] fresh ≠ ["node1"] ∧
  generated_names calm [OpAddNode (named "x"); OpAddNode unnamed] fresh
  = ["2"].
Proof. vm_compute. repeat split; done. Qed.

(** C4 fails as stated: when the signal to the first node fails, [Stop]
    returns that error and the second node is still in the mapping, with
    nothing closed or signalled for it. *)
Lemma Stop_abandons_the_rest :
  let run := Stop gone ["1"; "staker"] (two_nodes gone) in
  run.1 = Err (ErrSignal "1" (ErrExternal "os: process already finished")) ∧
  nodes (net run.2) !! "staker" = Some node2 ∧
  trace run.2
  = trace (two_nodes gone)
    ++ [{| call := SysWsClose (client node1); failure := None |};
        {| call := SysSignal 12 SIGTERM;
           failure := Some "os: process already finished" |}].
Proof. vm_compute. repeat split; done. Qed.

(** C7 fails as stated: the first [RemoveNode] of a node that was added
    does not succeed when the signal cannot be delivered. *)
Lemma RemoveNode_first_can_fail :
  let s1 := (AddNode gone unnamed fresh).2 in
  (AddNode gone unnamed fresh).1 = Ok node1 ∧
  (RemoveNode gone "1" s1).1
  = Err (ErrSignal "1" (ErrExternal "os: process already finished")) ∧
  (RemoveNode gone "1" s1).1 ≠ Ok tt.
Proof. vm_compute. repeat split; done. Qed.


(** [waitNode] on the booting node: the refused connection and the lagging
    X chain cost a round each, and the third round finds the node up, 17
    seconds in. *)
Example waitNode_booting :
  waitNode query clock sleep 3 booting = Some (true, (17000000000%Z, [])).
Proof. vm_compute. reflexivity. Qed.


Lemma fixture_time_passes : time_passes query clock sleep.
Proof.
  split.
  - intros chain [t [|r rest]]; unfold query, clock, second; simpl; lia.
  - intros [t script]. unfold sleep, clock, pollTime, second. simpl. lia.
Qed.

(** C1 at work: the booting node has a healthy round, and the wait for the
    dead node ends. *)
Lemma waitNode_true_iff_witness :
  (∃ k, healthy_round query clock sleep (clock booting) booting k) ∧
  (∃ fuel b w', waitNode query clock sleep fuel dead = Some (b, w')).
Proof.
  split.
  - destruct (waitNode_true_iff query clock sleep booting) as (H & _ & _).
    by apply (H 3 true _ waitNode_booting).
  - destruct (waitNode_true_iff query clock sleep dead) as (_ & _ & H).
    apply H, fixture_time_passes.
Defined.

End Examples.

(** ** More about the manager

    What follows looks at the manager from the outside: what its operations
    do to the file system and to the processes, on every path and not only
    on the successful one, and what a network looks like after any number of
    them. *)

Definition is_file_call (c : syscall) : bool :=
  match c with
  | SysMkdirAll _ _ | SysCreate _ | SysWrite _ _ | SysFileClose _ => true
  | _ => false
  end.

(** An event of the file system. *)
Definition file_event (ev : event) : Prop := is_file_call (call ev) = true.

(** [files_only m]: all that [m] does to the outside world is call the file
    system. *)
Definition files_only {A : Type} (m : M A) : Prop :=
  ∀ s, ∃ files, trace (m s).2 = trace s ++ files ∧ Forall file_event files.

(** [spawn_last m]: [m] calls the file system and then, at most once and as
    its last act, starts a process; the start went through exactly when [m]
    returns a value. *)
Definition spawn_last {A : Type} (m : M A) : Prop :=
  ∀ s, ∃ files rest,
    trace (m s).2 = trace s ++ files ++ rest ∧
    Forall file_event files ∧
    match (m s).1 with
    | Ok _ => ∃ path args,
        rest = [{| call := SysStart path args; failure := None |}]
    | Err _ => rest = [] ∨
               ∃ path args msg,
                 rest = [{| call := SysStart path args; failure := Some msg |}]
    | Panic _ => rest = []
    end.

(** A process that was started. *)
Definition started (ev : event) : bool :=
  match call ev, failure ev with
  | SysStart _ _, None => true
  | _, _ => false
  end.

(** An event of a removal: the close of a client, or a signal. *)
Definition is_removal (ev : event) : bool :=
  match call ev with
  | SysWsClose _ | SysSignal _ _ => true
  | _ => false
  end.

Definition is_Ok {A : Type} (r : result A) : bool :=
  match r with Ok _ => true | _ => false end.

(** The name [AddNode] works under: the one in the config, or the numeral
    of the counter. *)
Definition name_for (nodeConfig : Config) (s : State) : string :=
  if is_empty (Name nodeConfig) then fmt_Sprint (nextIntNodeID (net s))
  else Name nodeConfig.

(** The state after [AddNode] has taken its value of the counter, and done
    nothing else. *)
Definition counted (s : State) : State :=
  (set_nextIntNodeID (wrap64 (nextIntNodeID (net s) + 1)) s).2.

(** [no_panic m]: [m] returns a value or an error. *)
Definition no_panic {A : Type} (m : M A) : Prop :=
  ∀ s msg, (m s).1 ≠ Panic msg.

(** A signal sent to the process [pid], delivered or not. *)
Definition is_signal_to (pid : nat) (ev : event) : bool :=
  match call ev with
  | SysSignal p _ => bool_decide (p = pid)
  | _ => false
  end.

(** How many times [pid] was signalled in [tr]. *)
Definition signals_to (pid : nat) (tr : list event) : nat :=
  length (filter (is_signal_to pid) tr).

(** [c] is a process that was started in [tr]: its start is the event at
    the position that identifies it, and went through. *)
Definition started_at (tr : list event) (c : Cmd) : Prop :=
  tr !! Process c
  = Some {| call := SysStart (Path c) (Args c); failure := None |}.

(** [pid] is a process that was started in [tr]. *)
Definition was_started (tr : list event) (pid : nat) : Prop :=
  ∃ path args,
    tr !! pid = Some {| call := SysStart path args; failure := None |}.

(** The manager's books are in order: every handle of the mapping is for a
    process that was started and has not been signalled, no two names share
    a process, no process was signalled twice, and a process that was
    signalled is one that was started. *)
Definition accounted (s : State) : Prop :=
  (∀ k node, nodes (net s) !! k = Some node →
             started_at (trace s) (cmd node) ∧
             signals_to (Process (cmd node)) (trace s) = 0)
  ∧ (∀ k1 k2 n1 n2,
       nodes (net s) !! k1 = Some n1 → nodes (net s) !! k2 = Some n2 →
       Process (cmd n1) = Process (cmd n2) → k1 = k2)
  ∧ (∀ pid, signals_to pid (trace s) ≤ 1)
  ∧ (∀ pid, 0 < signals_to pid (trace s) → was_started (trace s) pid).

(** ** The manager at work *)
Module Scenario.

Import Fixture.

(** A network of two nodes, whose core flags are those of a node that
    generates its own certificate. *)
Definition pair_config : NetworkConfig :=
  {| Genesis := "{}"; CChainConfig := "{}"; CoreConfigFlags := ephemeralFlags;
     NodeConfigs := [unnamed; staker] |}.

(** The handle of [staker] in that network: with the core flags it needs no
    staking files. *)
Definition node2'' : localNode :=
  {| id := "staker";
     client := {| ipAddr := "127.0.0.1"; port := 9652;
                  requestTimeout := 20000000000 |};
     cmd := {| Path := "/usr/bin/caminogo";
               Args := ["--config-file=/tmp/n2/config.json"];
               Process := 25 |} |}.

(** The network [NewNetwork] makes of it, and the trace it leaves. *)
Definition pair_network : localNetwork :=
  {| binMap := bins; nextIntNodeID := 3;
     nodes := <["1" := node1]> (<["staker" := node2'']> ∅);
     coreConfigFlags := ephemeralMap ∪ ∅;
     genesis := "{}"; cChainConfig := "{}" |}.

Definition pair_trace : list event := (NewNetwork calm pair_config bins []).2.

(** A client that removes a node twice, stops the network and adds a
    node. *)
Definition busy : list op :=
  [OpRemoveNode "1"; OpRemoveNode "1"; OpGetNode "staker";
   OpStop ["staker"; "1"]; OpAddNode unnamed].


(** A network whose only node was added under the name "2", the numeral
    the counter has reached; and the handle an [AddNode] without a name
    then makes. *)
Definition named_two : State := (AddNode calm (named "2") fresh).2.

Definition old_two : localNode :=
  {| id := "2";
     client := {| ipAddr := "127.0.0.1"; port := 9650;
                  requestTimeout := 20000000000 |};
     cmd := {| Path := "/usr/bin/caminogo";
               Args := ["--config-file=/tmp/n1/config.json"];
               Process := 12 |} |}.

Definition new_two : localNode :=
  {| id := "2";
     client := {| ipAddr := "127.0.0.1"; port := 9650;
                  requestTimeout := 20000000000 |};
     cmd := {| Path := "/usr/bin/caminogo";
               Args := ["--config-file=/tmp/n1/config.json"];
               Process := 25 |} |}.

(** Every node answers like the one of the script. *)
Definition same_for_all (c : apiClient) := query.

(** A node that is up, behind a slow connection: each query takes 61
    seconds. *)
Definition slow_query (chain : string) (w : Node)
    : (bool * option string) * Node :=
  match w.2 with
  | [] => (refused, (w.1 + 61 * second, []))
  | r :: rest => (r, (w.1 + 61 * second, rest))
  end%Z.

Definition up : Node := (0%Z, [(true, None); (true, None); (true, None)]).

End Scenario.

(** ** Facts about the outside of the manager *)

Lemma files_only_silent {A : Type} (m : M A) :
  (∀ s, trace (m s).2 = trace s) → files_only m.
Proof. intros H s. exists []. by rewrite H, app_nil_r. Qed.

Lemma files_only_bind {A B : Type} (m : M A) (k : A → M B) :
  files_only m → (∀ a, files_only (k a)) → files_only (bind m k).
Proof.
  intros Hm Hk s. unfold bind. destruct (Hm s) as (f1 & Ht1 & Hf1).
  destruct (m s) as [[a|e|msg] s1]; simpl in *; eauto.
  destruct (Hk a s1) as (f2 & Ht2 & Hf2).
  exists (f1 ++ f2). rewrite Ht2, Ht1, app_assoc. split; [done|].
  by apply Forall_app.
Qed.

Lemma files_only_wrap {A : Type} g (m : M A) :
  files_only m → files_only (wrap g m).
Proof.
  intros Hm s. unfold wrap. destruct (Hm s) as (f1 & Ht1 & Hf1).
  destruct (m s) as [[a|e|msg] s1]; simpl in *; eauto.
Qed.

Lemma files_only_lift_ext {A : Type} (r : A + string) :
  files_only (lift_ext r).
Proof. destruct r; by apply files_only_silent. Qed.

Section Outside.

Variable P : Platform.

Lemma files_only_sys c : is_file_call c = true → files_only (sys P c).
Proof.
  intros Hc s. unfold sys.
  exists [{| call := c; failure := os_outcome P (trace s) c |}].
  split; [by destruct (os_outcome P (trace s) c)|].
  by apply Forall_cons.
Qed.

Lemma files_only_sys_ignore c :
  is_file_call c = true → files_only (sys_ignore P c).
Proof.
  intros Hc s. unfold sys_ignore.
  exists [{| call := c; failure := os_outcome P (trace s) c |}].
  split; [done|]. by apply Forall_cons.
Qed.

Ltac files_only :=
  repeat (intros;
          lazymatch goal with
          | |- files_only (bind _ _) => apply files_only_bind
          | |- files_only (wrap _ _) => apply files_only_wrap
          | |- files_only (lift_ext _) => apply files_only_lift_ext
          | |- files_only (sys _ _) => by apply files_only_sys
          | |- files_only (sys_ignore _ _) => by apply files_only_sys_ignore
          | |- files_only (match ?x with _ => _ end) => destruct x
          | |- files_only _ => first [ solve [eauto]
                                        | by apply files_only_silent ]
          end).

Lemma files_only_createFile fname contents :
  files_only (createFile P fname contents).
Proof. unfold createFile. files_only. Qed.

Lemma files_only_stakingFiles nodeConfig nodeID configFlags :
  files_only (stakingFiles P nodeConfig nodeID configFlags).
Proof.
  pose proof files_only_createFile.
  unfold stakingFiles, return_if. files_only.
Qed.

Lemma spawn_last_bind {A B : Type} (m : M A) (k : A → M B) :
  files_only m → (∀ a, spawn_last (k a)) → spawn_last (bind m k).
Proof.
  intros Hm Hk s. unfold bind. destruct (Hm s) as (f1 & Ht1 & Hf1).
  destruct (m s) as [[a|e|msg] s1]; simpl in *.
  - destruct (Hk a s1) as (f2 & rest & Ht2 & Hf2 & Hrest).
    exists (f1 ++ f2), rest. rewrite Ht2, Ht1, <- !app_assoc.
    split; [done|]. split; [by apply Forall_app|done].
  - exists f1, []. rewrite app_nil_r. auto.
  - exists f1, []. rewrite app_nil_r. auto.
Qed.

Lemma spawn_last_fail {A : Type} e : spawn_last (@fail A e).
Proof. intros s. exists [], []. simpl. rewrite app_nil_r. auto. Qed.

Lemma spawn_last_panic {A : Type} msg : spawn_last (@panic A msg).
Proof. intros s. exists [], []. simpl. rewrite app_nil_r. auto. Qed.

Lemma AddNode_spawn_last nodeConfig : spawn_last (AddNode P nodeConfig).
Proof.
  pose proof files_only_createFile. pose proof files_only_stakingFiles.
  unfold AddNode, return_if.
  repeat first
    [ apply spawn_last_fail
    | apply spawn_last_panic
    | apply spawn_last_bind; [ solve [files_only] | intros ? ]
    | match goal with
      | |- spawn_last (match ?x with _ => _ end) => destruct x
      end ].
  (* what is left is the start of the process and the recording of the
     handle *)
  intros st. unfold bind, wrap, cmd_Start, get_net, set_nodes, ret.
  destruct (os_outcome P (trace st) _) as [msg|];
    simpl; exists []; eexists; (split; [reflexivity|]); (split; [done|]);
    eauto.
Qed.


Lemma file_event_started ev : file_event ev → started ev = false.
Proof. unfold file_event, started. by destruct (call ev). Qed.

Lemma file_event_removal ev : file_event ev → is_removal ev = false.
Proof. unfold file_event, is_removal. by destruct (call ev). Qed.

Lemma filter_started_files files :
  Forall file_event files → filter started files = [].
Proof.
  induction 1 as [|ev files Hev _ IH]; [done|].
  rewrite filter_cons, IH. rewrite (file_event_started ev Hev). done.
Qed.

(** X1. All that [AddNode] does to the outside world is call the file system
    and then, at most once and as its last act, start a process. The start
    went through exactly when [AddNode] returns a node, and it is the start
    of the command in the handle: a failing [AddNode] leaves no process
    behind, a panicking one has not tried to start any, and no [AddNode]
    signals a process or closes a client. *)
Theorem AddNode_spawns_on_success_only nodeConfig s :
  ∃ files rest,
    trace (AddNode P nodeConfig s).2 = trace s ++ files ++ rest ∧
    Forall file_event files ∧
    match (AddNode P nodeConfig s).1 with
    | Ok node =>
      rest = [{| call := SysStart (Path (cmd node)) (Args (cmd node));
                 failure := None |}]
    | Err _ => rest = [] ∨
               ∃ path args msg,
                 rest = [{| call := SysStart path args; failure := Some msg |}]
    | Panic _ => rest = []
    end.
Proof.
  destruct (AddNode_spawn_last nodeConfig s) as (files & rest & Ht & Hf & Hr).
  exists files, rest. split; [done|]. split; [done|].
  destruct (AddNode P nodeConfig s) as [[node|e|msg] s'] eqn:Hadd;
    simpl in *; try done.
  apply AddNode_Ok_inv in Hadd
    as (? & ? & ? & ? & bin & ? & evs & _ & _ & _ & _ & _ & _ & _ & Ht'
        & _ & _ & Hcmd).
  rewrite Hcmd. simpl. destruct Hr as (path & args & ->).
  rewrite Ht' in Ht. rewrite !app_assoc in Ht.
  apply app_inj_tail in Ht as [_ Heq]. by rewrite Heq.
Qed.

Lemma AddNode_counts nodeConfig s :
  ∃ evs, trace (AddNode P nodeConfig s).2 = trace s ++ evs ∧
         Forall (λ ev, is_removal ev = false) evs ∧
         length (filter started evs)
         = (if is_Ok (AddNode P nodeConfig s).1 then 1 else 0).
Proof.
  destruct (AddNode_spawn_last nodeConfig s) as (files & rest & Ht & Hf & Hr).
  exists (files ++ rest). split; [done|].
  assert (Forall (λ ev, is_removal ev = false) files) as Hfiles.
  { eapply Forall_impl; [done|]. apply file_event_removal. }
  rewrite filter_app, (filter_started_files files Hf). simpl.
  destruct (AddNode P nodeConfig s).1 as [node|e|msg]; simpl.
  - destruct Hr as (path & args & ->). split; [|done].
    apply Forall_app. split; [done|]. by apply Forall_cons.
  - destruct Hr as [->|(path & args & m & ->)].
    + by rewrite app_nil_r.
    + split; [|done]. apply Forall_app. split; [done|]. by apply Forall_cons.
  - subst rest. by rewrite app_nil_r.
Qed.

End Outside.

Section Construction.

Variable P : Platform.

Lemma AddNode_static nodeConfig s :
  binMap (net (AddNode P nodeConfig s).2) = binMap (net s) ∧
  genesis (net (AddNode P nodeConfig s).2) = genesis (net s) ∧
  cChainConfig (net (AddNode P nodeConfig s).2) = cChainConfig (net s) ∧
  coreConfigFlags (net (AddNode P nodeConfig s).2) = coreConfigFlags (net s).
Proof.
  assert (∀ {X : Type} (f : localNetwork → X),
            (∀ ns, preserves f (set_nodes ns)) →
            (∀ n, preserves f (set_nextIntNodeID n)) →
            preserves f (AddNode P nodeConfig)) as H.
  { intros X f Hnodes Hcounter. unfold AddNode.
    pose proof (preserves_createFile P f).
    pose proof (preserves_stakingFiles P f).
    frame. }
  repeat split; by apply (H _ _).
Qed.

Lemma AddNode_size nodeConfig s :
  size (nodes (net (AddNode P nodeConfig s).2)) ≤ S (size (nodes (net s))).
Proof.
  pose proof (AddNode_on_failure P nodeConfig s) as Hfail.
  destruct (AddNode P nodeConfig s) as [[node|e|msg] s'] eqn:Hadd;
    simpl in *; try (rewrite Hfail; lia).
  apply AddNode_Ok_inv in Hadd as (? & ? & ? & ? & ? & ? & ? & _ & -> & _).
  rewrite map_size_insert.
  destruct (nodes (net s) !! id node); unfold Datatypes.id; lia.
Qed.

(** How a run of [addNodes] ends. *)
Lemma addNodes_run cfgs s :
  well_formed (net s) →
  ∃ evs,
    trace (addNodes P cfgs s).2 = trace s ++ evs ∧
    Forall (λ ev, is_removal ev = false) evs ∧
    length (filter started evs) ≤ length cfgs ∧
    (is_Ok (addNodes P cfgs s).1 = true →
     length (filter started evs) = length cfgs) ∧
    well_formed (net (addNodes P cfgs s).2) ∧
    size (nodes (net (addNodes P cfgs s).2))
    ≤ size (nodes (net s)) + length cfgs ∧
    binMap (net (addNodes P cfgs s).2) = binMap (net s) ∧
    genesis (net (addNodes P cfgs s).2) = genesis (net s) ∧
    cChainConfig (net (addNodes P cfgs s).2) = cChainConfig (net s) ∧
    coreConfigFlags (net (addNodes P cfgs s).2) = coreConfigFlags (net s).
Proof.
  revert s. induction cfgs as [|nodeConfig cfgs IH]; intros s Hwf.
  - exists []. simpl. rewrite app_nil_r. split_and!; try done; simpl; lia.
  - simpl. unfold bind.
    destruct (AddNode_counts P nodeConfig s) as (evs1 & Ht1 & Hr1 & Hc1).
    pose proof (AddNode_well_formed P nodeConfig s Hwf) as Hwf1.
    pose proof (AddNode_size nodeConfig s) as Hsize1.
    pose proof (AddNode_static nodeConfig s) as (Hb1 & Hg1 & Hcc1 & Hf1).
    destruct (AddNode P nodeConfig s) as [[node|e|msg] s1]; simpl in *.
    + destruct (IH s1 Hwf1)
        as (evs2 & Ht2 & Hr2 & Hle2 & Hc2 & Hwf2 & Hsize2 & Hb2 & Hg2 & Hcc2
            & Hf2).
      exists (evs1 ++ evs2). rewrite Ht2, Ht1, <- app_assoc.
      rewrite filter_app, length_app, Hc1.
      split_and!; try done; try congruence; try lia.
      * by apply Forall_app.
      * intros Hok. rewrite (Hc2 Hok). done.
    + exists evs1. rewrite Hc1. split_and!; try done; lia.
    + exists evs1. rewrite Hc1. split_and!; try done; lia.
Qed.

(** Each config costs a value of the counter. *)
Lemma addNodes_counter cfgs s :
  is_Ok (addNodes P cfgs s).1 = true →
  nextIntNodeID (net (addNodes P cfgs s).2)
  = match cfgs with
    | [] => nextIntNodeID (net s)
    | _ => wrap64 (nextIntNodeID (net s) + N.of_nat (length cfgs))
    end.
Proof.
  revert s. induction cfgs as [|nodeConfig cfgs IH]; intros s; [done|].
  simpl. unfold bind.
  pose proof (AddNode_counter P nodeConfig s) as Hc.
  destruct (AddNode P nodeConfig s) as [[node|e|msg] s1]; simpl in *;
    try done.
  intros Hok. rewrite (IH s1 Hok), Hc. destruct cfgs as [|c cfgs].
  - f_equal; try (simpl; lia).
  - unfold wrap64. rewrite N.Div0.add_mod_idemp_l. f_equal. simpl length. lia.
Qed.

(** A network that [NewNetwork] returns is what [addNodes] made of the
    empty network with the core flags. *)
Lemma NewNetwork_Ok_inv networkConfig bins tr net0 tr' :
  NewNetwork P networkConfig bins tr = (Ok net0, tr') →
  ∃ flags,
    Validate P networkConfig = None ∧
    json_Unmarshal P (CoreConfigFlags networkConfig) ∅ = inl flags ∧
    addNodes P (NodeConfigs networkConfig)
      {| net := {| binMap := bins; nextIntNodeID := 1; nodes := ∅;
                   coreConfigFlags := flags;
                   genesis := Genesis networkConfig;
                   cChainConfig := CChainConfig networkConfig |};
         trace := tr |}
    = (Ok tt, {| net := net0; trace := tr' |}).
Proof.
  unfold NewNetwork. destruct (Validate P networkConfig); [discriminate|].
  simpl.
  destruct (json_Unmarshal P (CoreConfigFlags networkConfig) ∅)
    as [flags|msg]; [|discriminate].
  intros H. exists flags. split; [done|]. split; [done|].
  destruct (addNodes P _ _) as [[[]|e|msg] [n t]]; simpl in H;
    try discriminate.
  by injection H as <- <-.
Qed.

(** X2. [NewNetwork] adds the nodes of the configuration one after the other,
    and has no undo. Whatever the outcome, nothing it does is a signal to a
    process or the close of a client, and it starts at most one process for
    each node config. When it returns a network it has started exactly one
    process for each node config; the network keeps the binaries, the
    genesis and the C-chain config it was given, its mapping satisfies the
    invariant and holds at most one handle for each config, and its counter
    has gone up by one for each config. A configuration that does not
    validate, or whose core flags do not parse, fails before anything is
    done. *)
Theorem NewNetwork_starts_each_node networkConfig bins tr :
  ∃ evs,
    (NewNetwork P networkConfig bins tr).2 = tr ++ evs ∧
    Forall (λ ev, is_removal ev = false) evs ∧
    length (filter started evs) ≤ length (NodeConfigs networkConfig) ∧
    (Validate P networkConfig ≠ None ∨
     (∃ msg, json_Unmarshal P (CoreConfigFlags networkConfig) ∅ = inr msg) →
     evs = [] ∧ is_Ok (NewNetwork P networkConfig bins tr).1 = false) ∧
    match (NewNetwork P networkConfig bins tr).1 with
    | Ok net0 =>
      length (filter started evs) = length (NodeConfigs networkConfig) ∧
      well_formed net0 ∧
      size (nodes net0) ≤ length (NodeConfigs networkConfig) ∧
      binMap net0 = bins ∧
      genesis net0 = Genesis networkConfig ∧
      cChainConfig net0 = CChainConfig networkConfig ∧
      nextIntNodeID net0
      = wrap64 (1 + N.of_nat (length (NodeConfigs networkConfig)))
    | _ => True
    end.
Proof.
  unfold NewNetwork.
  destruct (Validate P networkConfig) as [msg|] eqn:Hvalid.
  { exists []. simpl. rewrite app_nil_r. split_and!; try done. lia. }
  simpl.
  destruct (json_Unmarshal P (CoreConfigFlags networkConfig) ∅)
    as [flags|msg] eqn:Hflags.
  2:{ exists []. simpl. rewrite app_nil_r. split_and!; try done. lia. }
  match goal with
  | |- context [addNodes P ?cfgs ?s0] =>
    destruct (addNodes_run cfgs s0)
      as (evs & Ht & Hr & Hle & Hc & Hwf & Hsize & Hb & Hg & Hcc & _);
      [intros k node Hk; simpl in Hk; by rewrite lookup_empty in Hk|];
      pose proof (addNodes_counter cfgs s0) as Hcount;
      destruct (addNodes P cfgs s0) as [[u|e|msg] s1]
  end; simpl in *; exists evs; split_and!; try done;
    try (by intros [?|[? [=]]]).
  - by apply Hc.
  - rewrite Hcount by done. by destruct (NodeConfigs networkConfig).
Qed.

Lemma GetNode_state nodeID s : (GetNode nodeID s).2 = s.
Proof.
  unfold GetNode. rewrite bind_get_net. by destruct (nodes (net s) !! nodeID).
Qed.

Lemma Stop_well_formed order s :
  well_formed (net s) → well_formed (net (Stop P order s).2).
Proof.
  revert s. induction order as [|k order IH]; intros s Hwf; [done|].
  destruct (nodes (net s) !! k) as [node|] eqn:Hnode.
  - rewrite (Stop_cons_present _ _ _ _ _ Hnode).
    pose proof (RemoveNode_well_formed P k s Hwf) as Hwf1.
    destruct (RemoveNode P k s) as [[u|e|msg] s1]; simpl in *; try done.
    by apply IH.
  - rewrite (Stop_cons_absent _ _ _ _ Hnode). by apply IH.
Qed.

Lemma run_op_well_formed o s :
  well_formed (net s) → well_formed (net (run_op P o s)).
Proof.
  intros Hwf. destruct o; simpl.
  - by apply AddNode_well_formed.
  - by rewrite GetNode_state.
  - done.
  - by apply RemoveNode_well_formed.
  - by apply Stop_well_formed.
Qed.

(** X3. The invariant of the mapping holds all along the life of a network: a
    network that [NewNetwork] returned satisfies it, and so does the network
    after any sequence of operations of the manager on it, whatever each of
    them returned. No key is the empty string, and every key is the name in
    the handle it maps to, so the handle [GetNode] returns for a name
    carries that name. *)
Theorem manager_invariant networkConfig bins tr net0 tr' ops :
  NewNetwork P networkConfig bins tr = (Ok net0, tr') →
  let s := foldl (λ s o, run_op P o s) {| net := net0; trace := tr' |} ops in
  well_formed (net s) ∧
  ∀ nodeID node s', GetNode nodeID s = (Ok node, s') →
                    id node = nodeID ∧ nodeID ≠ "" ∧ s' = s.
Proof.
  intros Hnew.
  assert (well_formed net0) as Hwf.
  { apply NewNetwork_Ok_inv in Hnew as (flags & _ & _ & Hadd).
    match type of Hadd with
    | addNodes P ?cfgs ?s0 = _ =>
      destruct (addNodes_run cfgs s0) as (_ & _ & _ & _ & _ & H & _)
    end.
    - intros k node Hk. simpl in Hk. by rewrite lookup_empty in Hk.
    - by rewrite Hadd in H. }
  assert (∀ s, well_formed (net s) →
               well_formed (net (foldl (λ s o, run_op P o s) s ops))) as Hrun.
  { induction ops as [|o ops IH]; intros s Hs; [done|]. simpl.
    by apply IH, run_op_well_formed. }
  specialize (Hrun {| net := net0; trace := tr' |} Hwf).
  simpl. split; [done|].
  intros nodeID node s' Hget.
  pose proof (GetNode_state nodeID
                (foldl (λ s o, run_op P o s) {| net := net0; trace := tr' |} ops))
    as Hstate.
  rewrite Hget in Hstate. simpl in Hstate. subst s'.
  unfold GetNode in Hget. rewrite bind_get_net in Hget.
  destruct (nodes _ !! nodeID) as [node'|] eqn:Hnode; [|done].
  injection Hget as ->. destruct (Hrun _ _ Hnode). done.
Qed.

End Construction.

Section Files.

Variable P : Platform.

(** X4. [createFile] gives up at the first call that fails: it returns the
    error of that call, and nothing is attempted after it, so that a file
    whose write failed is not closed. It succeeds when the three calls that
    can fail went through, whatever the close of the file answers. It does
    not touch the network, and it does not panic. *)
Theorem createFile_first_failure fname contents s :
  ∃ evs,
    (createFile P fname contents s).2
    = {| net := net s; trace := trace s ++ evs |} ∧
    match (createFile P fname contents s).1 with
    | Ok _ =>
      map call evs = createFile_calls P fname contents ∧
      Forall delivered (take 3 evs)
    | Err e =>
      ∃ before c msg,
        evs = before ++ [{| call := c; failure := Some msg |}] ∧
        e = ErrExternal msg ∧
        Forall delivered before ∧
        map call evs `prefix_of` take 3 (createFile_calls P fname contents)
    | Panic _ => False
    end.
Proof.
  destruct s as [n tr].
  unfold createFile, bind, sys, sys_ignore, ret, log. simpl.
  destruct (os_outcome P tr _) as [msg|] eqn:H1; simpl.
  { eexists. split; [reflexivity|]. eexists [], _, msg.
    split_and!; [done|done|apply Forall_nil_2|by eexists [_; _]]. }
  destruct (os_outcome P (tr ++ [_]) _) as [msg|] eqn:H2; simpl.
  { eexists. split; [by rewrite <- app_assoc|]. eexists [_], _, msg.
    split_and!; [done|done| |by eexists [_]].
    apply Forall_cons_2; [done|apply Forall_nil_2]. }
  destruct (os_outcome P ((tr ++ [_]) ++ [_]) _) as [msg|] eqn:H3; simpl.
  { eexists. split; [by rewrite <- !app_assoc|].
    eexists [_; _], _, msg.
    split_and!; [done|done| |by eexists []].
    repeat (apply Forall_cons_2; [done|]). apply Forall_nil_2. }
  eexists. split; [by rewrite <- !app_assoc|].
  split; [done|]. simpl.
  repeat (apply Forall_cons_2; [done|]). apply Forall_nil_2.
Qed.

End Files.

Tactic Notation "step" hyp(H) "as" ident(a) ident(s1) ident(Hs) :=
  apply bind_Ok_inv in H as (a & s1 & Hs & H); cbv beta in H.

Section Adding.

Variable P : Platform.

Lemma is_empty_true (x : string) : is_empty x = true ↔ x = "".
Proof. unfold is_empty. by case_bool_decide. Qed.

Lemma is_empty_false (x : string) : is_empty x = false ↔ x ≠ "".
Proof. unfold is_empty. by case_bool_decide. Qed.

(** X5. [AddNode] checks the config before it touches the filesystem, in this
    order: the name must be free, the type must be there, the flags must not
    be empty and must parse. A config that fails one of the checks gets the
    error of the first it fails; the call has by then used up a value of the
    counter, and has done nothing else. *)
Theorem AddNode_checks_config_first nodeConfig s :
  let nodeID := name_for nodeConfig s in
  let flags := json_Unmarshal P (ConfigFlags nodeConfig)
                 (coreConfigFlags (net s) ∪ ∅) in
  (Name nodeConfig ≠ "" → is_Some (nodes (net s) !! Name nodeConfig) →
   AddNode P nodeConfig s
   = (Err (ErrRepeatedName (Name nodeConfig)
             (fmt_Sprint (nextIntNodeID (net s)))), counted s))
  ∧ (Name nodeConfig = "" ∨ nodes (net s) !! Name nodeConfig = None →
     (Type_ nodeConfig = ANil →
      AddNode P nodeConfig s = (Err (ErrTypeEmpty nodeID), counted s))
     ∧ (Type_ nodeConfig ≠ ANil → ConfigFlags nodeConfig = "" →
        AddNode P nodeConfig s = (Err (ErrConfigFlagsEmpty nodeID), counted s))
     ∧ (Type_ nodeConfig ≠ ANil → ConfigFlags nodeConfig ≠ "" →
        ∀ msg, flags = inr msg →
               AddNode P nodeConfig s
               = (Err (ErrUnmarshal nodeID (ErrExternal msg)), counted s))).
Proof.
  simpl. unfold name_for, counted.
  split.
  - intros Hname%is_empty_false [node Hnode].
    unfold AddNode. rewrite bind_get_net, bind_set_nextIntNodeID.
    unfold bind at 1. by rewrite Hname, Hnode.
  - intros Hfree.
    assert (∀ k : string → M localNode,
              bind (if is_empty (Name nodeConfig)
                    then ret (fmt_Sprint (nextIntNodeID (net s)))
                    else match nodes (net s) !! Name nodeConfig with
                         | Some _ =>
                           fail (ErrRepeatedName (Name nodeConfig)
                                   (fmt_Sprint (nextIntNodeID (net s))))
                         | None => ret (Name nodeConfig)
                         end) k (counted s)
              = k (if is_empty (Name nodeConfig)
                   then fmt_Sprint (nextIntNodeID (net s))
                   else Name nodeConfig) (counted s)) as Hstep.
    { intros k. unfold bind.
      destruct (is_empty (Name nodeConfig)) eqn:Hname; [done|].
      destruct Hfree as [Hfree|Hfree].
      - apply is_empty_false in Hname. done.
      - by rewrite Hfree. }
    unfold counted in Hstep.
    split; [|split].
    + intros Hty. unfold AddNode.
      rewrite bind_get_net, bind_set_nextIntNodeID, Hstep.
      unfold bind at 1. by rewrite Hty.
    + intros Hty Hflags. unfold AddNode.
      rewrite bind_get_net, bind_set_nextIntNodeID, Hstep.
      unfold bind at 1.
      replace (is_nil (Type_ nodeConfig)) with false
        by (by destruct (Type_ nodeConfig)).
      simpl. unfold bind at 1. by rewrite Hflags.
    + intros Hty Hflags%is_empty_false msg Hmsg. unfold AddNode.
      rewrite bind_get_net, bind_set_nextIntNodeID, Hstep.
      unfold bind at 1.
      replace (is_nil (Type_ nodeConfig)) with false
        by (by destruct (Type_ nodeConfig)).
      simpl. unfold bind at 1. rewrite Hflags. simpl.
      unfold bind at 1. unfold wrap. simpl. by rewrite Hmsg.
Qed.

(** X6. What a successful [AddNode] needed: a free name, a type that is a
    number and has a binary, flags that parse and give the address of the
    node's API, and the certificate and key unless the node makes its own.
    The handle it returns carries the name it went under, a client for that
    address with a timeout of twenty seconds, and the binary of its type. *)
Theorem AddNode_requirements nodeConfig s node s' :
  AddNode P nodeConfig s = (Ok node, s') →
  id node = name_for nodeConfig s ∧
  (Name nodeConfig ≠ "" → nodes (net s) !! Name nodeConfig = None) ∧
  ConfigFlags nodeConfig ≠ "" ∧
  ∃ t flags ip portF,
    Type_ nodeConfig = AFloat64 t ∧
    json_Unmarshal P (ConfigFlags nodeConfig) (coreConfigFlags (net s) ∪ ∅)
    = inl flags ∧
    binMap (net s) !! nodeType_of_float64 P t = Some (Path (cmd node)) ∧
    as_string (flags !! PublicIPKey P) = Some ip ∧
    as_float64 (flags !! HTTPPortKey P) = Some portF ∧
    client node = NewAPIClient ip (uint_of_float64 P portF) (20 * second) ∧
    (usesEphemeralCert P flags = false →
     Cert nodeConfig ≠ "" ∧ PrivateKey nodeConfig ≠ "").
Proof.
  unfold AddNode, name_for. intros H.
  rewrite bind_get_net, bind_set_nextIntNodeID in H.
  set (sc := (set_nextIntNodeID (wrap64 (nextIntNodeID (net s) + 1)) s).2) in H.
  step H as nodeID s1 Hname.
  assert (nodeID = (if is_empty (Name nodeConfig)
                    then fmt_Sprint (nextIntNodeID (net s))
                    else Name nodeConfig) ∧
          (Name nodeConfig ≠ "" → nodes (net s) !! Name nodeConfig = None))
    as [HnodeID Hfree].
  { destruct (is_empty (Name nodeConfig)) eqn:Hempty.
    - apply is_empty_true in Hempty. by injection Hname as <- <-.
    - destruct (nodes (net s) !! Name nodeConfig); [discriminate|].
      by injection Hname as <- <-. }
  step H as u2 s2 Htype. apply return_if_Ok_inv in Htype as [_ ->].
  step H as u3 s3 Hempty. apply return_if_Ok_inv in Hempty as [Hflags0 ->].
  apply is_empty_false in Hflags0.
  step H as configFlags s4 Hflags.
  apply wrap_Ok_inv, lift_ext_Ok_inv in Hflags as [Hflags ->].
  destruct (as_string (configFlags !! ChainConfigDirKey P))
    as [configDir|] eqn:Hdir; [|discriminate].
  step H as configBytes s5 Hbytes.
  step H as u6 s6 Hf1. step H as u7 s7 Hf2.
  destruct (as_string (configFlags !! GenesisConfigFileKey P))
    as [genesisFname|] eqn:Hgen; [|discriminate].
  step H as u8 s8 Hf3. step H as u9 s9 Hstaking.
  assert (usesEphemeralCert P configFlags = false →
          Cert nodeConfig ≠ "" ∧ PrivateKey nodeConfig ≠ "") as Hcred.
  { intros Heph. rewrite Heph in Hstaking. unfold stakingFiles in Hstaking.
    step Hstaking as v1 t1 Hcert.
    apply return_if_Ok_inv in Hcert as [Hcert%is_empty_false ->].
    destruct (as_string (configFlags !! StakingCertPathKey P));
      [|discriminate].
    step Hstaking as v2 t2 Hfile. step Hstaking as v3 t3 Hkey.
    apply return_if_Ok_inv in Hkey as [Hkey%is_empty_false ->]. done. }
  destruct (as_string (configFlags !! PublicIPKey P))
    as [nodeIP|] eqn:Hip; [|discriminate].
  destruct (as_float64 (configFlags !! HTTPPortKey P))
    as [nodePortF|] eqn:Hport; [|discriminate].
  destruct (Type_ nodeConfig) as [| |t| |] eqn:Hty; try discriminate.
  destruct (binMap (net s) !! nodeType_of_float64 P t)
    as [avalanchegoPath|] eqn:Hbin; [|discriminate].
  step H as c s10 Hstart.
  apply wrap_Ok_inv, cmd_Start_Ok in Hstart as (-> & _ & _).
  rewrite bind_get_net, bind_set_nodes in H.
  injection H as <- <-. simpl.
  split_and!; try done.
  exists t, configFlags, nodeIP, nodePortF. by split_and!.
Qed.

Lemma no_panic_bind {A B : Type} (m : M A) (k : A → M B) :
  no_panic m → (∀ a, no_panic (k a)) → no_panic (bind m k).
Proof.
  intros Hm Hk s msg. unfold bind. specialize (Hm s).
  destruct (m s) as [[a|e|msg'] s1]; simpl in *; [apply Hk|done|].
  by destruct (Hm msg').
Qed.

Lemma no_panic_bind_fail {A B : Type} e (k : A → M B) :
  no_panic (bind (fail e) k).
Proof. intros s msg. unfold bind, fail. simpl. discriminate. Qed.

Lemma no_panic_wrap {A : Type} g (m : M A) : no_panic m → no_panic (wrap g m).
Proof.
  intros Hm s msg. unfold wrap. specialize (Hm s).
  destruct (m s) as [[a|e|msg'] s1]; simpl in *; done.
Qed.

Lemma no_panic_lift_ext {A : Type} (r : A + string) : no_panic (lift_ext r).
Proof. intros s msg. destruct r; simpl; discriminate. Qed.

Lemma no_panic_sys c : no_panic (sys P c).
Proof.
  intros s msg. unfold sys.
  destruct (os_outcome P (trace s) c); simpl; discriminate.
Qed.

Lemma no_panic_cmd_Start path args : no_panic (cmd_Start P path args).
Proof.
  intros s msg. unfold cmd_Start.
  destruct (os_outcome P (trace s) _); simpl; discriminate.
Qed.

Ltac no_panic :=
  repeat (intros; cbv beta iota;
          lazymatch goal with
          | |- no_panic (bind (fail _) _) => apply no_panic_bind_fail
          | |- no_panic (bind _ _) => apply no_panic_bind
          | |- no_panic (wrap _ _) => apply no_panic_wrap
          | |- no_panic (lift_ext _) => apply no_panic_lift_ext
          | |- no_panic (sys _ _) => apply no_panic_sys
          | |- no_panic (cmd_Start _ _ _) => apply no_panic_cmd_Start
          | |- no_panic (match ?x with _ => _ end) => destruct x
          | |- no_panic _ => first [ solve [eauto] | done ]
          end).

Lemma no_panic_createFile fname contents :
  no_panic (createFile P fname contents).
Proof. unfold createFile. no_panic. Qed.

Lemma no_panic_stakingFiles nodeConfig nodeID configFlags :
  no_panic (stakingFiles P nodeConfig nodeID configFlags).
Proof.
  pose proof no_panic_createFile. unfold stakingFiles, return_if. no_panic.
Qed.

(** With no type, or a type that is a number, [AddNode] does not panic. *)
Lemma AddNode_no_panic nodeConfig :
  Type_ nodeConfig = ANil ∨ (∃ t, Type_ nodeConfig = AFloat64 t) →
  no_panic (AddNode P nodeConfig).
Proof.
  pose proof no_panic_createFile. pose proof no_panic_stakingFiles.
  intros [Hty|[t Hty]]; unfold AddNode; rewrite Hty;
    unfold return_if, is_nil; no_panic.
Qed.

Lemma bind_Panic_inv {A B : Type} (m : M A) (k : A → M B) s msg s' :
  no_panic m →
  bind m k s = (Panic msg, s') →
  ∃ a s1, m s = (Ok a, s1) ∧ k a s1 = (Panic msg, s').
Proof.
  intros Hm. unfold bind. specialize (Hm s).
  destruct (m s) as [[a|e|msg0] s1]; simpl in *; intros H.
  - eauto.
  - discriminate.
  - by destruct (Hm msg0).
Qed.

Tactic Notation "pstep" hyp(H) "as" ident(a) ident(s1) ident(Hs) :=
  apply bind_Panic_inv in H as (a & s1 & Hs & H);
  [cbv beta in H | solve [unfold return_if; no_panic]].


Lemma went_through_file_events evs calls :
  map call evs = calls → Forall (λ c, is_file_call c = true) calls →
  Forall file_event evs.
Proof.
  intros <- Hall. apply Forall_fmap in Hall. done.
Qed.


End Adding.

Section Lookups.

Variable P : Platform.

Lemma GetNode_lookup nodeID s :
  GetNode nodeID s
  = (match nodes (net s) !! nodeID with
     | Some node => Ok node
     | None => Err (ErrNotFound nodeID)
     end, s).
Proof.
  unfold GetNode. rewrite bind_get_net. by destruct (nodes (net s) !! nodeID).
Qed.

Lemma RemoveNode_nodes nodeID s :
  nodes (net (RemoveNode P nodeID s).2) = delete nodeID (nodes (net s)).
Proof.
  destruct (nodes (net s) !! nodeID) as [node|] eqn:Hnode.
  - apply (RemoveNode_present_state P _ _ _ Hnode).
  - rewrite (RemoveNode_absent P _ _ Hnode). symmetry. by apply delete_id.
Qed.

(** X8. [GetNode] follows the mapping. After an [AddNode] that returned a node,
    [GetNode] of its name returns that node, and answers for every other
    name as before; after an [AddNode] that failed it answers for every name
    as before. After a [RemoveNode], whatever it returned, [GetNode] of the
    name fails with the not-found error, and answers for every other name
    as before. [GetNode] itself changes nothing. *)
Theorem GetNode_after_AddNode_RemoveNode s :
  (∀ nodeID, (GetNode nodeID s).2 = s)
  ∧ (∀ nodeConfig,
       match AddNode P nodeConfig s with
       | (Ok node, s') =>
         GetNode (id node) s' = (Ok node, s') ∧
         ∀ k, k ≠ id node → (GetNode k s').1 = (GetNode k s).1
       | (_, s') => ∀ k, (GetNode k s').1 = (GetNode k s).1
       end)
  ∧ (∀ nodeID,
       let s' := (RemoveNode P nodeID s).2 in
       GetNode nodeID s' = (Err (ErrNotFound nodeID), s') ∧
       ∀ k, k ≠ nodeID → (GetNode k s').1 = (GetNode k s).1).
Proof.
  split_and!.
  - intros nodeID. by rewrite GetNode_lookup.
  - intros nodeConfig.
    pose proof (AddNode_on_failure P nodeConfig s) as Hfail.
    destruct (AddNode P nodeConfig s) as [[node|e|msg] s'] eqn:Hadd;
      simpl in Hfail.
    + apply AddNode_Ok_inv in Hadd as (? & ? & ? & ? & ? & ? & ? & _ & Hn & _).
      split.
      * by rewrite GetNode_lookup, Hn, lookup_insert_eq.
      * intros k Hk. rewrite !GetNode_lookup, Hn. simpl.
        by rewrite lookup_insert_ne.
    + intros k. rewrite !GetNode_lookup. simpl. by rewrite Hfail.
    + intros k. rewrite !GetNode_lookup. simpl. by rewrite Hfail.
  - intros nodeID. simpl. split.
    + by rewrite GetNode_lookup, RemoveNode_nodes, lookup_delete_eq.
    + intros k Hk. rewrite !GetNode_lookup, RemoveNode_nodes. simpl.
      by rewrite lookup_delete_ne.
Qed.

(** X9. A generated name is not checked against the mapping. When the numeral
    of the counter is the name of a node of the network (one that was added
    under that name), an [AddNode] without a name that succeeds puts its
    handle in the place of that node's: the mapping has as many names as
    before, the handle the name had is no longer in it, and nothing was
    closed or signalled for it. *)
Theorem AddNode_generated_name_replaces nodeConfig s old node s' :
  Name nodeConfig = "" →
  nodes (net s) !! fmt_Sprint (nextIntNodeID (net s)) = Some old →
  AddNode P nodeConfig s = (Ok node, s') →
  id node = fmt_Sprint (nextIntNodeID (net s)) ∧
  nodes (net s') = <[id node := node]> (nodes (net s)) ∧
  size (nodes (net s')) = size (nodes (net s)) ∧
  length (trace s) ≤ Process (cmd node) ∧
  ∃ evs, trace s' = trace s ++ evs ∧
         Forall (λ ev, is_removal ev = false) evs.
Proof.
  intros Hname Hold Hadd.
  destruct (AddNode_counts P nodeConfig s) as (evs & Ht & Hquiet & _).
  rewrite Hadd in Ht. simpl in Ht.
  apply AddNode_Ok_inv in Hadd
    as (? & ? & ? & ? & ? & ? & files & Hid & Hn & _ & _ & _ & _ & _ & _ & _
        & _ & Hcmd).
  rewrite Hname in Hid. change (is_empty "") with true in Hid.
  split_and!; try done.
  - rewrite Hn, map_size_insert, Hid, Hold. done.
  - rewrite Hcmd. simpl. rewrite length_app. lia.
  - eauto.
Qed.

(** X10. [Stop] on a network it has emptied does nothing: once a [Stop] has
    returned nil, having gone over all the names, the mapping is empty, a
    second [Stop] returns nil without a call to the outside world, and
    [GetNode] and [RemoveNode] fail with the not-found error for every
    name. The counter of the generated names is where it was. *)
Theorem Stop_then_nothing_left order s :
  NoDup order →
  (∀ k, k ∈ order ↔ is_Some (nodes (net s) !! k)) →
  (Stop P order s).1 = Ok tt →
  let s' := (Stop P order s).2 in
  nodes (net s') = ∅ ∧
  nextIntNodeID (net s') = nextIntNodeID (net s) ∧
  (∀ order', Stop P order' s' = (Ok tt, s')) ∧
  (∀ k, GetNode k s' = (Err (ErrNotFound k), s')) ∧
  (∀ k, RemoveNode P k s' = (Err (ErrNotFound k), s')).
Proof.
  intros Hnd Hkeys Hok. simpl.
  assert (nodes (net (Stop P order s).2) = ∅) as Hempty.
  { destruct (Stop_run P order s Hnd)
      as (visited & rest & evs & Horder & _ & _ & Hn & Hr).
    rewrite Hok in Hr. destruct Hr as [-> _]. rewrite app_nil_r in Horder.
    subst visited. rewrite Hn. apply map_eq. intros k.
    rewrite lookup_without, lookup_empty.
    case_bool_decide as Hin; [done|].
    destruct (nodes (net s) !! k) eqn:Hk; [|done].
    exfalso. apply Hin, Hkeys. by rewrite Hk. }
  split_and!; try done.
  - apply preserves_Stop_counter.
  - intros order'. induction order' as [|k order' IH]; [done|].
    rewrite Stop_cons_absent; [done|]. by rewrite Hempty, lookup_empty.
  - intros k. by rewrite GetNode_lookup, Hempty, lookup_empty.
  - intros k. apply RemoveNode_absent. by rewrite Hempty, lookup_empty.
Qed.

End Lookups.

(** *** The processes of a network *)

Lemma signals_to_app pid tr evs :
  signals_to pid (tr ++ evs) = signals_to pid tr + signals_to pid evs.
Proof. unfold signals_to. by rewrite filter_app, length_app. Qed.

Lemma signals_to_quiet pid evs :
  Forall (λ ev, is_removal ev = false) evs → signals_to pid evs = 0.
Proof.
  unfold signals_to. induction 1 as [|ev evs Hev _ IH]; [done|].
  rewrite filter_cons.
  replace (is_signal_to pid ev) with false; [done|].
  unfold is_signal_to, is_removal in *. by destruct (call ev).
Qed.

Lemma started_at_app tr evs c : started_at tr c → started_at (tr ++ evs) c.
Proof. unfold started_at. intros H. by apply lookup_app_l_Some. Qed.

Lemma started_at_lt tr c : started_at tr c → Process c < length tr.
Proof. unfold started_at. intros H. by apply lookup_lt_Some in H. Qed.

Lemma was_started_app tr evs pid :
  was_started tr pid → was_started (tr ++ evs) pid.
Proof.
  intros (path & args & H). exists path, args. by apply lookup_app_l_Some.
Qed.

Lemma was_started_lt tr pid : was_started tr pid → pid < length tr.
Proof. intros (path & args & H). by apply lookup_lt_Some in H. Qed.

Section Accounts.

Variable P : Platform.

(** Events that are not removals keep the books in order when the mapping
    stays as it is. *)
Lemma accounted_quiet s s' evs :
  accounted s →
  nodes (net s') = nodes (net s) →
  trace s' = trace s ++ evs →
  Forall (λ ev, is_removal ev = false) evs →
  accounted s'.
Proof.
  intros (Hnodes & Hdistinct & Honce & Hknown) Hn Ht Hquiet.
  unfold accounted. rewrite Hn, Ht.
  split_and!.
  - intros k node Hk. destruct (Hnodes k node Hk) as [Hstart Hsig].
    split; [by apply started_at_app|].
    by rewrite signals_to_app, Hsig, signals_to_quiet.
  - done.
  - intros pid. rewrite signals_to_app, (signals_to_quiet _ evs) by done.
    specialize (Honce pid). lia.
  - intros pid. rewrite signals_to_app, (signals_to_quiet _ evs) by done.
    intros Hpid. apply was_started_app, Hknown. lia.
Qed.

Lemma AddNode_accounted nodeConfig s :
  accounted s → accounted (AddNode P nodeConfig s).2.
Proof.
  intros Hs.
  destruct (AddNode_counts P nodeConfig s) as (evs & Ht & Hquiet & _).
  pose proof (AddNode_on_failure P nodeConfig s) as Hfail.
  destruct (AddNode P nodeConfig s) as [[node|e|msg] s'] eqn:Hadd;
    simpl in *; try by apply (accounted_quiet s s' evs).
  clear Hfail.
  apply AddNode_Ok_inv in Hadd
    as (? & ? & ? & ? & bin & ? & files & _ & Hn & _ & _ & _ & _ & _ & Ht'
        & _ & _ & Hcmd).
  destruct Hs as (Hnodes & Hdistinct & Honce & Hknown).
  assert (∀ pid, signals_to pid (trace s') = signals_to pid (trace s)) as Hsig.
  { intros pid. by rewrite Ht, signals_to_app, (signals_to_quiet _ evs). }
  assert (started_at (trace s') (cmd node) ∧
          length (trace s) ≤ Process (cmd node)) as [Hstart Hnew].
  { rewrite Hcmd, Ht'. unfold started_at. simpl. split.
    - rewrite app_assoc. apply list_lookup_middle. done.
    - rewrite length_app. lia. }
  assert (∀ k n, nodes (net s) !! k = Some n →
                 Process (cmd n) < length (trace s)) as Hold.
  { intros k n Hk. apply started_at_lt. by apply (Hnodes k n). }
  unfold accounted. rewrite Hn.
  split_and!.
  - intros k n Hk. destruct (decide (id node = k)) as [<-|Hne].
    + rewrite lookup_insert_eq in Hk. injection Hk as <-.
      split; [done|]. rewrite Hsig.
      destruct (signals_to (Process (cmd node)) (trace s)) eqn:Hcount;
        [done|].
      assert (Process (cmd node) < length (trace s)); [|lia].
      apply was_started_lt, Hknown. lia.
    + rewrite lookup_insert_ne in Hk by done.
      destruct (Hnodes k n Hk) as [Hst Hs0]. split.
      * rewrite Ht. by apply started_at_app.
      * by rewrite Hsig.
  - intros k1 k2 n1 n2 Hk1 Hk2 Hpid.
    destruct (decide (id node = k1)) as [<-|Hne1];
      destruct (decide (id node = k2)) as [<-|Hne2]; try done.
    + rewrite lookup_insert_eq in Hk1. injection Hk1 as <-.
      rewrite lookup_insert_ne in Hk2 by done.
      apply Hold in Hk2. lia.
    + rewrite lookup_insert_eq in Hk2. injection Hk2 as <-.
      rewrite lookup_insert_ne in Hk1 by done.
      apply Hold in Hk1. lia.
    + rewrite lookup_insert_ne in Hk1, Hk2 by done.
      by apply (Hdistinct k1 k2 n1 n2).
  - intros pid. by rewrite Hsig.
  - intros pid. rewrite Hsig, Ht. intros H%Hknown. by apply was_started_app.
Qed.

Lemma RemoveNode_accounted nodeID s :
  accounted s → accounted (RemoveNode P nodeID s).2.
Proof.
  intros Hs. destruct (nodes (net s) !! nodeID) as [node|] eqn:Hnode.
  2:{ by rewrite (RemoveNode_absent P _ _ Hnode). }
  destruct (RemoveNode_present_state P _ _ _ Hnode) as [Hn Ht].
  destruct Hs as (Hnodes & Hdistinct & Honce & Hknown).
  destruct (Hnodes _ _ Hnode) as [Hstart Hzero].
  assert (∀ pid, signals_to pid (trace (RemoveNode P nodeID s).2)
                 = signals_to pid (trace s)
                   + (if bool_decide (Process (cmd node) = pid) then 1 else 0))
    as Hsig.
  { intros pid. rewrite Ht, signals_to_app. f_equal.
    unfold signals_to, removal_events. rewrite !filter_cons. simpl.
    unfold is_signal_to. simpl. by case_bool_decide. }
  unfold accounted. rewrite Hn.
  split_and!.
  - intros k n [Hne Hk]%lookup_delete_Some.
    destruct (Hnodes k n Hk) as [Hst Hs0]. split.
    + rewrite Ht. by apply started_at_app.
    + rewrite Hsig, Hs0. case_bool_decide as Hpid; [|done].
      destruct Hne. by apply (Hdistinct nodeID k node n).
  - intros k1 k2 n1 n2 [_ Hk1]%lookup_delete_Some [_ Hk2]%lookup_delete_Some.
    by apply Hdistinct.
  - intros pid. rewrite Hsig. case_bool_decide as Hpid.
    + subst pid. rewrite Hzero. lia.
    + specialize (Honce pid). lia.
  - intros pid. rewrite Hsig, Ht. case_bool_decide as Hpid.
    + subst pid. intros _. apply was_started_app. by eexists _, _.
    + intros H. apply was_started_app, Hknown. lia.
Qed.

Lemma Stop_accounted order s :
  accounted s → accounted (Stop P order s).2.
Proof.
  revert s. induction order as [|k order IH]; intros s Hs; [done|].
  destruct (nodes (net s) !! k) as [node|] eqn:Hnode.
  - rewrite (Stop_cons_present _ _ _ _ _ Hnode).
    pose proof (RemoveNode_accounted k s Hs) as Hs1.
    destruct (RemoveNode P k s) as [[u|e|msg] s1]; simpl in *; try done.
    by apply IH.
  - rewrite (Stop_cons_absent _ _ _ _ Hnode). by apply IH.
Qed.

Lemma run_op_accounted o s : accounted s → accounted (run_op P o s).
Proof.
  intros Hs. destruct o; simpl.
  - by apply AddNode_accounted.
  - by rewrite GetNode_lookup.
  - done.
  - by apply RemoveNode_accounted.
  - by apply Stop_accounted.
Qed.

Lemma addNodes_accounted cfgs s :
  accounted s → accounted (addNodes P cfgs s).2.
Proof.
  revert s. induction cfgs as [|nodeConfig cfgs IH]; intros s Hs; [done|].
  simpl. unfold bind.
  pose proof (AddNode_accounted nodeConfig s Hs) as Hs1.
  destruct (AddNode P nodeConfig s) as [[node|e|msg] s1]; simpl in *;
    try done.
  by apply IH.
Qed.

(** X11. The manager keeps account of its processes. In a network that
    [NewNetwork] made in a world where no process had been signalled, and
    after any sequence of operations on it, whatever each returned: every
    handle of the mapping is for a process that the manager started and has
    not signalled; no two names share a process; no process has been sent
    more than one signal, delivered or not; and every signal went to a
    process that had been started. *)
Theorem manager_signals_once networkConfig bins tr net0 tr' ops :
  Forall (λ ev, is_removal ev = false) tr →
  NewNetwork P networkConfig bins tr = (Ok net0, tr') →
  accounted (foldl (λ s o, run_op P o s) {| net := net0; trace := tr' |} ops).
Proof.
  intros Htr Hnew.
  assert (accounted {| net := net0; trace := tr' |}) as Hs.
  { apply NewNetwork_Ok_inv in Hnew as (flags & _ & _ & Hadd).
    match type of Hadd with
    | addNodes P ?cfgs ?s0 = _ =>
      assert (accounted s0) as H0;
        [|pose proof (addNodes_accounted cfgs s0 H0) as H1;
          by rewrite Hadd in H1]
    end.
    unfold accounted. simpl. split_and!.
    - intros k node Hk. by rewrite lookup_empty in Hk.
    - intros k1 k2 n1 n2 Hk. by rewrite lookup_empty in Hk.
    - intros pid. rewrite signals_to_quiet by done. lia.
    - intros pid. rewrite signals_to_quiet by done. lia. }
  revert Hs. generalize {| net := net0; trace := tr' |}.
  induction ops as [|o ops IH]; intros s Hs; [done|].
  simpl. by apply IH, run_op_accounted.
Qed.

End Accounts.

(** *** [waitNode], on the clock *)

Section WaitNodeTiming.

Context {W : Type}.
Variable IsBootstrapped : string → W → (bool * option string) * W.
Variable Now : W → Z.
Variable Sleep : Z → W → W.



End WaitNodeTiming.

(** ** [Ready]

    [Ready] hands out two channels and leaves a goroutine behind, which
    waits for the nodes one after the other. What it does is seen on the
    channels and in the log. The send on [errorCh], which has no buffer,
    goes through when the caller receives: [receives] is the number of
    errors the caller will take. *)
Inductive ready_event : Type :=
| ErrorSent (nodeID : string)
| LoggedUp (nodeID : string)
| ReadyClosed.

(** How the goroutine ends: it returns, it stays in the send of the timeout
    of a node for ever, or it is still polling a node when the fuel is
    used up. *)
Inductive ready_exit : Type :=
| Finished
| Stuck (nodeID : string)
| Polling (nodeID : string).

Section Ready.

Context {W : Type}.
Variable IsBootstrapped : apiClient → string → W → (bool * option string) * W.
Variable Now : W → Z.
Variable Sleep : Z → W → W.

(** [for id := range net.nodes { ... }; close(readyCh)] *)
Fixpoint readyLoop (fuel : nat) (nodes : gmap string localNode)
    (order : list string) (receives : nat) (w : W)
    : list ready_event * ready_exit :=
  match order with
  | [] => ([ReadyClosed], Finished)
  | nodeID :: rest =>
    match nodes !! nodeID with
    | None => readyLoop fuel nodes rest receives w
    | Some node =>
      match waitNode (IsBootstrapped (client node)) Now Sleep fuel w with
      | None => ([], Polling nodeID)
      | Some (true, w') =>
        let '(evs, e) := readyLoop fuel nodes rest receives w' in
        (LoggedUp nodeID :: evs, e)
      | Some (false, w') =>
        match receives with
        | O => ([], Stuck nodeID)
        | S receives' =>
          let '(evs, e) := readyLoop fuel nodes rest receives' w' in
          (ErrorSent nodeID :: LoggedUp nodeID :: evs, e)
        end
      end
    end
  end.

(** The goroutine of [Ready], on the network of [s]. *)
Definition Ready (fuel : nat) (order : list string) (receives : nat)
    (s : State) (w : W) : list ready_event * ready_exit :=
  readyLoop fuel (nodes (net s)) order receives w.

Definition errors_sent (evs : list ready_event) : list string :=
  omap (λ ev, match ev with ErrorSent nodeID => Some nodeID | _ => None end)
       evs.

Definition logged_up (evs : list ready_event) : list string :=
  omap (λ ev, match ev with LoggedUp nodeID => Some nodeID | _ => None end)
       evs.

(** The names a range over the mapping visits. *)
Definition visited (nodes : gmap string localNode) (order : list string)
    : list string :=
  filter (λ k, is_Some (nodes !! k)) order.

(** What the waits answer, one after the other, each starting in the world
    the one before left: the name of the node, and whether it came up
    before its wait ran out. [None] when the fuel is used up in the middle
    of a wait. *)
Fixpoint verdicts (fuel : nat) (nodes : gmap string localNode)
    (order : list string) (w : W) : option (list (string * bool)) :=
  match order with
  | [] => Some []
  | nodeID :: rest =>
    match nodes !! nodeID with
    | None => verdicts fuel nodes rest w
    | Some node =>
      match waitNode (IsBootstrapped (client node)) Now Sleep fuel w with
      | None => None
      | Some (up, w') => cons (nodeID, up) <$> verdicts fuel nodes rest w'
      end
    end
  end.

(** The nodes whose wait ran out. *)
Definition timed_out (vs : list (string * bool)) : list string :=
  omap (λ v : string * bool, if v.2 then None else Some v.1) vs.

(** What the goroutine makes of the answer of a wait: an error on
    [errorCh] when the wait ran out, and a line in the log either way. *)
Definition report (v : string * bool) : list ready_event :=
  if v.2 then [LoggedUp v.1] else [ErrorSent v.1; LoggedUp v.1].

Lemma errors_sent_report vs :
  errors_sent (flat_map report vs) = timed_out vs.
Proof.
  induction vs as [|[k []] vs IH]; simpl; [done|done|].
  unfold errors_sent, timed_out in *. simpl. by rewrite IH.
Qed.

Lemma logged_up_report vs : logged_up (flat_map report vs) = vs.*1.
Proof.
  induction vs as [|[k []] vs IH]; simpl; [done| |];
    unfold logged_up in *; simpl; by rewrite IH.
Qed.

Lemma ReadyClosed_not_reported vs : ReadyClosed ∉ flat_map report vs.
Proof.
  induction vs as [|[k []] vs IH]; simpl.
  - apply not_elem_of_nil.
  - apply not_elem_of_cons. done.
  - apply not_elem_of_cons. split; [done|]. apply not_elem_of_cons. done.
Qed.

(** The loop, given the answers of the waits. *)
Lemma readyLoop_spec fuel nodes order receives w vs :
  verdicts fuel nodes order w = Some vs →
  vs.*1 = visited nodes order ∧
  (length (timed_out vs) ≤ receives →
   readyLoop fuel nodes order receives w
   = (flat_map report vs ++ [ReadyClosed], Finished)) ∧
  (receives < length (timed_out vs) →
   ∃ before k rest,
     vs = before ++ (k, false) :: rest ∧
     length (timed_out before) = receives ∧
     readyLoop fuel nodes order receives w
     = (flat_map report before, Stuck k)).
Proof.
  revert receives w vs.
  induction order as [|k order IH]; intros receives w vs; simpl.
  { intros [= <-]. split; [done|]. split; [done|]. simpl. lia. }
  unfold visited. rewrite filter_cons.
  destruct (nodes !! k) as [node|] eqn:Hnode.
  2:{ rewrite decide_False by (by intros [? ?]). apply IH. }
  rewrite decide_True by done.
  destruct (waitNode _ _ _ fuel w) as [[up w']|]; [|done].
  destruct (verdicts fuel nodes order w') as [vs'|] eqn:Hrest; [|done].
  simpl. intros [= <-].
  destruct up.
  - (* the node is up *)
    destruct (IH receives w' vs' Hrest) as (Hvis & Hend & Hstuck).
    split; [by rewrite fmap_cons, Hvis|]. split.
    + intros Hle. by rewrite (Hend Hle).
    + intros Hlt. destruct (Hstuck Hlt) as (before & k' & rest & -> & Hn & ->).
      by exists ((k, true) :: before), k', rest.
  - (* the wait ran out *)
    destruct receives as [|receives].
    + split; [|split].
      * destruct (IH 0 w' vs' Hrest) as (Hvis & _). by rewrite fmap_cons, Hvis.
      * simpl. lia.
      * intros _. by exists [], k, vs'.
    + destruct (IH receives w' vs' Hrest) as (Hvis & Hend & Hstuck).
      split; [by rewrite fmap_cons, Hvis|]. split.
      * intros Hle. rewrite Hend; [done|]. simpl in Hle. lia.
      * intros Hlt.
        destruct Hstuck as (before & k' & rest & -> & Hn & ->);
          [simpl in Hlt; lia|].
        exists ((k, false) :: before), k', rest. simpl. by rewrite Hn.
Qed.

(** With fuel for the rounds of a minute, no wait is cut short. *)
Lemma verdicts_ends fuel nodes order w :
  (∀ c, time_passes (IsBootstrapped c) Now Sleep) →
  (timeout < Z.of_nat fuel)%Z →
  is_Some (verdicts fuel nodes order w).
Proof.
  intros Htime Hfuel. revert w.
  induction order as [|k order IH]; intros w; simpl; [done|].
  destruct (nodes !! k) as [node|]; [|apply IH].
  destruct (waitLoop_ends (IsBootstrapped (client node)) Now Sleep fuel
              (Now w) false w (Htime _)) as [[up w'] Hrun]; [lia|].
  unfold waitNode. rewrite Hrun.
  destruct (IH w') as [vs ->]. done.
Qed.

(** X13. What the goroutine of [Ready] does is decided by the answers of
    the waits and by the number of errors the caller takes. A node whose
    wait ran out costs an error on [errorCh], and is then logged as up like
    the nodes that came up. When the caller takes an error for each wait
    that ran out, the goroutine gets to the end of its loop and closes
    [readyCh]: by then every node of the network is logged as up, and the
    nodes named on [errorCh] are the ones whose wait ran out, in the order
    of the loop. Otherwise it stays for ever in the send for the first wait
    that ran out after the caller stopped taking errors: the nodes after it
    are not waited for, and [readyCh] is never closed. (The waits do have
    answers when the fuel is enough for the rounds of a minute and the
    clock moves.) *)
Theorem Ready_closes_whatever_the_nodes_do fuel order receives s w :
  match verdicts fuel (nodes (net s)) order w with
  | Some vs =>
    vs.*1 = visited (nodes (net s)) order ∧
    (length (timed_out vs) ≤ receives →
     let evs := flat_map report vs ++ [ReadyClosed] in
     Ready fuel order receives s w = (evs, Finished) ∧
     errors_sent evs = timed_out vs ∧
     logged_up evs = visited (nodes (net s)) order) ∧
    (receives < length (timed_out vs) →
     ∃ before k rest,
       let evs := flat_map report before in
       vs = before ++ (k, false) :: rest ∧
       Ready fuel order receives s w = (evs, Stuck k) ∧
       errors_sent evs = timed_out before ∧
       length (timed_out before) = receives ∧
       logged_up evs = before.*1 ∧
       (ReadyClosed ∉ evs))
  | None =>
    ¬ ((∀ c, time_passes (IsBootstrapped c) Now Sleep) ∧
       (timeout < Z.of_nat fuel)%Z)
  end.
Proof.
  pose proof (verdicts_ends fuel (nodes (net s)) order w) as Hends.
  destruct (verdicts fuel (nodes (net s)) order w) as [vs|] eqn:Hvs.
  2:{ intros [Htime Hfuel]. by destruct (Hends Htime Hfuel). }
  destruct (readyLoop_spec fuel (nodes (net s)) order receives w vs Hvs)
    as (Hvis & Hend & Hstuck).
  split; [done|]. split.
  - intros Hle. simpl. unfold Ready. rewrite (Hend Hle). split; [done|].
    unfold errors_sent, logged_up.
    rewrite !omap_app. simpl. rewrite !app_nil_r.
    fold (errors_sent (flat_map report vs)).
    fold (logged_up (flat_map report vs)).
    by rewrite errors_sent_report, logged_up_report.
  - intros Hlt. destruct (Hstuck Hlt) as (before & k & rest & -> & Hn & Hrun).
    exists before, k, rest. simpl. unfold Ready. rewrite Hrun.
    split_and!; try done.
    + apply errors_sent_report.
    + apply logged_up_report.
    + apply ReadyClosed_not_reported.
Qed.

End Ready.

Section MoreExamples.

Import Fixture Scenario.

Example NewNetwork_pair :
  NewNetwork calm pair_config bins [] = (Ok pair_network, pair_trace).
Proof.
  unfold pair_trace.
  rewrite (surjective_pairing (NewNetwork calm pair_config bins [])) at 1.
  apply (f_equal2 pair); [vm_compute; reflexivity | reflexivity].
Qed.

(** The invariant at work: the network of two nodes, after the busy
    client. *)
Lemma manager_invariant_witness :
  let s := foldl (λ s o, run_op calm o s)
             {| net := pair_network; trace := pair_trace |} busy in
  well_formed (net s) ∧
  ∀ nodeID node s', GetNode nodeID s = (Ok node, s') →
                    id node = nodeID ∧ nodeID ≠ "" ∧ s' = s.
Proof.
  apply (manager_invariant calm pair_config bins [] pair_network pair_trace
           busy).
  apply NewNetwork_pair.
Defined.

(** The books at work: the same network and client. *)
Lemma manager_signals_once_witness :
  accounted (foldl (λ s o, run_op calm o s)
               {| net := pair_network; trace := pair_trace |} busy).
Proof.
  apply (manager_signals_once calm pair_config bins [] pair_network pair_trace
           busy).
  - apply Forall_nil_2.
  - apply NewNetwork_pair.
Defined.

Lemma AddNode_staker_fresh :
  AddNode calm staker fresh = (Ok node2', (AddNode calm staker fresh).2).
Proof.
  rewrite (surjective_pairing (AddNode calm staker fresh)) at 1.
  apply (f_equal2 pair); [vm_compute; reflexivity | reflexivity].
Qed.

(** What [staker] needed to be added to the new network. *)
Lemma AddNode_requirements_witness :
  id node2' = "staker" ∧
  ∃ t flags ip portF,
    Type_ staker = AFloat64 t ∧
    json_Unmarshal calm (ConfigFlags staker) (coreConfigFlags (net fresh) ∪ ∅)
    = inl flags ∧
    binMap (net fresh) !! nodeType_of_float64 calm t = Some (Path (cmd node2')) ∧
    as_string (flags !! PublicIPKey calm) = Some ip ∧
    as_float64 (flags !! HTTPPortKey calm) = Some portF ∧
    client node2' = NewAPIClient ip (uint_of_float64 calm portF) (20 * second) ∧
    (usesEphemeralCert calm flags = false →
     Cert staker ≠ "" ∧ PrivateKey staker ≠ "").
Proof.
  destruct (AddNode_requirements calm staker fresh node2' _ AddNode_staker_fresh)
    as (Hid & _ & _ & Hrest).
  split; [exact Hid | exact Hrest].
Defined.


Lemma AddNode_named_two :
  AddNode calm unnamed named_two
  = (Ok new_two, (AddNode calm unnamed named_two).2).
Proof.
  rewrite (surjective_pairing (AddNode calm unnamed named_two)) at 1.
  apply (f_equal2 pair); [vm_compute; reflexivity | reflexivity].
Qed.

(** The node named "2" loses its place to the second node of the
    network, which gets the generated name "2". *)
Lemma AddNode_generated_name_replaces_witness :
  nodes (net named_two) !! "2" = Some old_two ∧
  nodes (net (AddNode calm unnamed named_two).2)
  = <["2" := new_two]> (nodes (net named_two)) ∧
  size (nodes (net (AddNode calm unnamed named_two).2)) = 1.
Proof.
  assert (nodes (net named_two) !! fmt_Sprint (nextIntNodeID (net named_two))
          = Some old_two) as Hold by (vm_compute; reflexivity).
  destruct (AddNode_generated_name_replaces calm unnamed named_two old_two
              new_two _ eq_refl Hold AddNode_named_two)
    as (_ & Hnodes & Hsize & _).
  split; [exact Hold|]. split; [exact Hnodes|].
  rewrite Hsize. vm_compute. reflexivity.
Defined.

(** [Stop] on the network of two nodes, twice. *)
Lemma Stop_then_nothing_left_witness :
  let s' := (Stop calm ["1"; "staker"] (two_nodes calm)).2 in
  nodes (net s') = ∅ ∧
  nextIntNodeID (net s') = nextIntNodeID (net (two_nodes calm)) ∧
  (∀ order', Stop calm order' s' = (Ok tt, s')) ∧
  (∀ k, GetNode k s' = (Err (ErrNotFound k), s')) ∧
  (∀ k, RemoveNode calm k s' = (Err (ErrNotFound k), s')).
Proof.
  apply (Stop_then_nothing_left calm ["1"; "staker"] (two_nodes calm)).
  - apply (bool_decide_unpack _). vm_compute. exact I.
  - apply two_nodes_keys, two_nodes_calm.
  - vm_compute. reflexivity.
Defined.



(** C1 fails as stated: on the slow connection the first answer comes when
    the minute is over, and the round reports the three chains
    bootstrapped after 183 seconds; [waitNode] returns true all the same,
    because the round had started in time. *)
Lemma waitNode_true_after_timeout :
  waitNode slow_query clock sleep 1 up = Some (true, (183000000000%Z, [])) ∧
  (timeout < clock (slow_query "P" up).2 - clock up)%Z ∧
  (timeout < 183000000000 - clock up)%Z ∧
  healthy_round slow_query clock sleep (clock up) up 0.
Proof.
  split; [vm_compute; reflexivity|].
  split; [vm_compute; reflexivity|].
  split; [vm_compute; reflexivity|].
  split.
  - intros j Hj. replace j with 0 by lia. vm_compute. discriminate.
  - vm_compute. done.
Qed.

(** [Ready] on the network of two nodes that never answer. A caller that
    takes two errors gets both, and [readyCh] is closed with both nodes
    logged as up. *)
Lemma Ready_witness :
  Ready same_for_all clock sleep 61 ["1"; "staker"] 2 (two_nodes calm) dead
  = ([ErrorSent "1"; LoggedUp "1"; ErrorSent "staker"; LoggedUp "staker";
      ReadyClosed], Finished).
Proof.
  pose proof (Ready_closes_whatever_the_nodes_do same_for_all clock sleep 61
                ["1"; "staker"] 2 (two_nodes calm) dead) as H.
  assert (verdicts same_for_all clock sleep 61 (nodes (net (two_nodes calm)))
            ["1"; "staker"] dead
          = Some [("1", false); ("staker", false)]) as Hvs
    by (vm_compute; reflexivity).
  rewrite Hvs in H. destruct H as (_ & H & _).
  destruct H as [H _]; [simpl; lia|]. exact H.
Defined.

(** The same with a caller that takes no error: the goroutine stays in its
    first send. *)
Example Ready_stuck :
  Ready same_for_all clock sleep 61 ["1"; "staker"] 0 (two_nodes calm) dead
  = ([], Stuck "1").
Proof. vm_compute. reflexivity. Qed.

End MoreExamples.

End Local.

Module Server.

(** ** Data *)

(** [rpcpb.NodeInfo]. *)
Record NodeInfo : Type := {
  Name : string;
  ExecPath : string;
  Uri : string;
  Id : string;
  LogDir : string;
  DbDir : string;
  WhitelistedSubnets : string
}.

(** An [api.Client], known by the address it talks to. *)
Inductive Client : Type := ClientOf (uri : string).

(** A [node.Node] as the network hands it out. [GetNodeID] is taken with
    its prefix already applied. *)
Record Node : Type := {
  GetURL : string;
  GetAPIPort : N;
  GetNodeID : string;
  GetAPIClient : Client
}.

(** A [network.Network] is an interface implemented elsewhere: what the
    wrapper sees of it is what its methods return. [GetAllNodes] lists the
    entries of its map in the order a range visits them. *)
Record Network : Type := {
  GetAllNodes : list (string * Node) + string;
  Stop : option string
}.

Inductive channel : Type := readyc | stopc | donec.

Record localNetwork : Type := {
  binPath : string;
  nw : option Network;
  nodeNames : list string;
  nodeInfos : gmap string NodeInfo;
  apiClis : gmap string Client;
  readycCloseOnce : bool;
  stopOnce : bool;
  (** the channels that have been closed *)
  closed : channel → bool;
  (** [errc], a channel with room for one error *)
  errc : list string
}.

Inductive error : Type :=
| errAborted
| DeadlineExceeded
| ErrOf (msg : string).

(** What the wrapper does that others can see; [EvOutf] is a line printed by
    [color.Outf], without the colour markup. *)
Inductive event : Type :=
| EvOutf (text : string)
| EvClose (c : channel)
| EvHealthy (timeout : Z)
| EvCancel
| EvGetAllNodes
| EvStop (serr : option string)
| EvReceive (c : channel)
| EvSendErr (msg : string).

(** How a call ends: it returns, it panics, or it never comes back. *)
Inductive exit (A : Type) : Type :=
| Return (a : A)
| Panicked (msg : string)
| Blocked.
Arguments Return {A} a.
Arguments Panicked {A} msg.
Arguments Blocked {A}.

Record run (A : Type) : Type := {
  ended : exit A;
  after : localNetwork;
  events : list event
}.
Arguments ended {A} r.
Arguments after {A} r.
Arguments events {A} r.

Definition nil_dereference : string :=
  "invalid memory address or nil pointer dereference".

Definition set_closed (c : channel) (lc : localNetwork) : localNetwork :=
  {| binPath := binPath lc; nw := nw lc; nodeNames := nodeNames lc;
     nodeInfos := nodeInfos lc; apiClis := apiClis lc;
     readycCloseOnce := readycCloseOnce lc; stopOnce := stopOnce lc;
     closed := λ c', match c, c' with
                     | readyc, readyc | stopc, stopc | donec, donec => true
                     | _, _ => closed lc c'
                     end;
     errc := errc lc |}.

Definition set_stopOnce (lc : localNetwork) : localNetwork :=
  {| binPath := binPath lc; nw := nw lc; nodeNames := nodeNames lc;
     nodeInfos := nodeInfos lc; apiClis := apiClis lc;
     readycCloseOnce := readycCloseOnce lc; stopOnce := true;
     closed := closed lc; errc := errc lc |}.

Definition set_readycCloseOnce (lc : localNetwork) : localNetwork :=
  {| binPath := binPath lc; nw := nw lc; nodeNames := nodeNames lc;
     nodeInfos := nodeInfos lc; apiClis := apiClis lc;
     readycCloseOnce := true; stopOnce := stopOnce lc;
     closed := closed lc; errc := errc lc |}.

Definition set_nw (n : Network) (lc : localNetwork) : localNetwork :=
  {| binPath := binPath lc; nw := Some n; nodeNames := nodeNames lc;
     nodeInfos := nodeInfos lc; apiClis := apiClis lc;
     readycCloseOnce := readycCloseOnce lc; stopOnce := stopOnce lc;
     closed := closed lc; errc := errc lc |}.

(** [lc.errc <- err]: [errc] has room for one error, and a send that finds
    it full does not go on ([None]). *)
Definition send_errc (msg : string) (lc : localNetwork)
    : option localNetwork :=
  match errc lc with
  | [] =>
    Some {| binPath := binPath lc; nw := nw lc; nodeNames := nodeNames lc;
            nodeInfos := nodeInfos lc; apiClis := apiClis lc;
            readycCloseOnce := readycCloseOnce lc; stopOnce := stopOnce lc;
            closed := closed lc; errc := [msg] |}
  | _ :: _ => None
  end.

(** [lc.nodeInfos[name].Uri = uri; lc.nodeInfos[name].Id = nodeID;
    lc.apiClis[name] = client] *)
Definition set_node (name : string) (info : NodeInfo) (uri nodeID : string)
    (c : Client) (lc : localNetwork) : localNetwork :=
  {| binPath := binPath lc; nw := nw lc; nodeNames := nodeNames lc;
     nodeInfos := <[name := {| Name := Name info; ExecPath := ExecPath info;
                               Uri := uri; Id := nodeID;
                               LogDir := LogDir info; DbDir := DbDir info;
                               WhitelistedSubnets := WhitelistedSubnets info |}]>
                  (nodeInfos lc);
     apiClis := <[name := c]> (apiClis lc);
     readycCloseOnce := readycCloseOnce lc; stopOnce := stopOnce lc;
     closed := closed lc; errc := errc lc |}.

(** ** [newNetwork]

    The names and the catalogue it builds for the [n] node configs of the
    default configuration, given [filepath.Join]; the logger and the config
    texts are left out. *)
Definition nodeName (i : nat) : string := "node" +:+ pretty (i + 1).

Definition newNetwork (filepath_Join : list string → string)
    (execPath rootDataDir whitelistedSubnets : string) (n : nat)
    : localNetwork :=
  {| binPath := execPath;
     nw := None;
     nodeNames := map nodeName (seq 0 n);
     nodeInfos :=
       list_to_map
         (map (λ i, (nodeName i,
                     {| Name := nodeName i; ExecPath := execPath; Uri := "";
                        Id := "";
                        LogDir := filepath_Join [rootDataDir; nodeName i; "log"];
                        DbDir := filepath_Join [rootDataDir; nodeName i; "db-dir"];
                        WhitelistedSubnets := whitelistedSubnets |}))
              (seq 0 n));
     apiClis := ∅;
     readycCloseOnce := false;
     stopOnce := false;
     closed := λ _, false;
     errc := [] |}.

(** ** [waitForHealthy] *)

Definition second : Z := 1000000000.

Definition healthyWait : Z := 2 * 60 * second.

(** What can make the [select] go on: [stopc] is closed, the context is
    done, a value arrives on the channel of [Healthy]. *)
Inductive occurrence : Type :=
| OccStop
| OccDone
| OccHealthy (err : option string).

(** The surroundings of one call: what had occurred when the [select] was
    reached, what occurs afterwards, in order, and the choice the runtime
    makes when more than one case can proceed. The context's timer fires
    after [late] at the latest. *)
Record Race : Type := {
  early : list occurrence;
  late : list occurrence;
  pick : nat
}.

(** The cases that can proceed when the [select] is evaluated. *)
Definition ready (lc : localNetwork) (r : Race) : list occurrence :=
  (if closed lc stopc then [OccStop] else []) ++ early r.

(** Go's [select]: one of the cases that can proceed, chosen by the
    runtime; when none can, the first that occurs. *)
Definition select (lc : localNetwork) (r : Race) : option occurrence :=
  match ready lc r with
  | [] => head (late r ++ [OccDone])
  | c :: cs => (c :: cs) !! (pick r mod length (c :: cs))%nat
  end.

(** [%q] *)
Definition quoted (s : string) : string :=
  String (Ascii.ascii_of_nat 34) s +:+ String (Ascii.ascii_of_nat 34) "".

Definition uri_of (node : Node) : string :=
  "http://" +:+ GetURL node +:+ ":" +:+ pretty (GetAPIPort node).

(** [for name, node := range nodes { ... }] *)
Fixpoint record_nodes (nodes : list (string * Node)) (lc : localNetwork)
    : run unit :=
  match nodes with
  | [] => {| ended := Return tt; after := lc; events := [] |}
  | (name, node) :: rest =>
    match nodeInfos lc !! name with
    | None => {| ended := Panicked nil_dereference; after := lc; events := [] |}
    | Some info =>
      let lc' := set_node name info (uri_of node) (GetNodeID node)
                   (GetAPIClient node) lc in
      let r := record_nodes rest lc' in
      {| ended := ended r; after := after r;
         events := EvOutf (name +:+ ": node ID " +:+ quoted (GetNodeID node)
                           +:+ ", URI " +:+ quoted (uri_of node)) :: events r |}
    end
  end.

(** [lc.readycCloseOnce.Do(func() { close(lc.readyc) })] *)
Definition close_readyc_once (lc : localNetwork) : run unit :=
  if readycCloseOnce lc then {| ended := Return tt; after := lc; events := [] |}
  else if closed lc readyc then
    {| ended := Panicked "close of closed channel";
       after := set_readycCloseOnce lc; events := [] |}
  else {| ended := Return tt;
          after := set_closed readyc (set_readycCloseOnce lc);
          events := [EvClose readyc] |}.

(** What [waitForHealthy] does once the [select] has gone on with [o]. *)
Definition proceed (n : Network) (o : occurrence) (lc : localNetwork)
    : run (option error) :=
  match o with
  | OccStop => {| ended := Return (Some errAborted); after := lc; events := [] |}
  | OccDone =>
    {| ended := Return (Some DeadlineExceeded); after := lc; events := [] |}
  | OccHealthy (Some msg) =>
    {| ended := Return (Some (ErrOf msg)); after := lc; events := [] |}
  | OccHealthy None =>
    match GetAllNodes n with
    | inr msg => {| ended := Return (Some (ErrOf msg)); after := lc;
                    events := [EvGetAllNodes] |}
    | inl nodes =>
      let r := record_nodes nodes lc in
      match ended r with
      | Return _ =>
        let c := close_readyc_once (after r) in
        {| ended := match ended c with
                    | Return _ => Return None
                    | Panicked msg => Panicked msg
                    | Blocked => Blocked
                    end;
           after := after c;
           events := EvGetAllNodes :: events r ++ events c |}
      | Panicked msg => {| ended := Panicked msg; after := after r;
                           events := EvGetAllNodes :: events r |}
      | Blocked => {| ended := Blocked; after := after r;
                      events := EvGetAllNodes :: events r |}
      end
    end
  end.

(** [waitForHealthy]. The deferred [cancel] runs however the call ends. *)
Definition waitForHealthy (lc : localNetwork) (r : Race) : run (option error) :=
  let outf := EvOutf "waiting for all nodes to report healthy..." in
  match nw lc with
  | None => {| ended := Panicked nil_dereference; after := lc;
               events := [outf; EvCancel] |}
  | Some n =>
    match select lc r with
    | None => {| ended := Blocked; after := lc;
                 events := [outf; EvHealthy healthyWait] |}
    | Some o =>
      let p := proceed n o lc in
      {| ended := ended p; after := after p;
         events := [outf; EvHealthy healthyWait] ++ events p ++ [EvCancel] |}
    end
  end.

(** ** [start] and [stop] *)

(** [err.Error()] *)
Definition error_text (e : error) : string :=
  match e with
  | errAborted => "aborted"
  | DeadlineExceeded => "context deadline exceeded"
  | ErrOf msg => msg
  end.

(** [lc.errc <- err; return]: nobody takes an error from [errc] while
    [start] runs, so that a send that finds the buffer full stays there. *)
Definition report_error (msg : string) (lc : localNetwork)
    (evs : list event) : run unit :=
  match send_errc msg lc with
  | Some lc' => {| ended := Return tt; after := lc';
                   events := evs ++ [EvSendErr msg] |}
  | None => {| ended := Blocked; after := lc; events := evs |}
  end.

(** The deferred [close(lc.donec)]: it runs when the body returns or
    panics, and panics itself on a channel that is closed already. *)
Definition close_donec (body : run unit) : run unit :=
  match ended body with
  | Blocked => body
  | _ =>
    if closed (after body) donec then
      {| ended := Panicked "close of closed channel"; after := after body;
         events := events body |}
    else
      {| ended := ended body; after := set_closed donec (after body);
         events := events body ++ [EvClose donec] |}
  end.

(** The body of [start], given what [local.NewNetwork] returns. *)
Definition start_body (created : Network + string) (r : Race)
    (lc : localNetwork) : run unit :=
  let outf := EvOutf "create and run local network" in
  match created with
  | inr msg => report_error msg lc [outf]
  | inl n =>
    let w := waitForHealthy (set_nw n lc) r in
    match ended w with
    | Return None =>
      {| ended := Return tt; after := after w; events := outf :: events w |}
    | Return (Some e) =>
      report_error (error_text e) (after w) (outf :: events w)
    | Panicked msg =>
      {| ended := Panicked msg; after := after w; events := outf :: events w |}
    | Blocked => {| ended := Blocked; after := after w;
                    events := outf :: events w |}
    end
  end.

(** [start]: the body, and the deferred close of [donec]. *)
Definition start (created : Network + string) (r : Race) (lc : localNetwork)
    : run unit :=
  close_donec (start_body created r lc).

Definition show_error (serr : option string) : string :=
  match serr with
  | None => "<nil>"
  | Some msg => msg
  end.

(** The teardown [stop] hands to [stopOnce.Do]. The receive from [donec]
    goes on when [donec] is closed, which the goroutine of [start] does as
    its last act; as long as it is open the teardown stays in the receive.
    The calls of this model are made one after the other: a goroutine of
    [start] that runs alongside is not part of it. *)
Definition teardown (lc : localNetwork) : run unit :=
  if closed lc stopc then
    {| ended := Panicked "close of closed channel"; after := lc; events := [] |}
  else
    let lc := set_closed stopc lc in
    match nw lc with
    | None => {| ended := Panicked nil_dereference; after := lc;
                 events := [EvClose stopc] |}
    | Some n =>
      if closed lc donec then
        {| ended := Return tt; after := lc;
           events := [EvClose stopc; EvStop (Stop n); EvReceive donec;
                      EvOutf ("terminated network (error "
                              +:+ show_error (Stop n) +:+ ")")] |}
      else
        {| ended := Blocked; after := lc;
           events := [EvClose stopc; EvStop (Stop n)] |}
    end.

(** [stop]: [sync.Once] runs the teardown on the first call, and counts the
    call as made when the teardown returns and also when it panics. While
    the teardown has not come back the call is not counted (and [Do] keeps
    its lock). *)
Definition stop (lc : localNetwork) : run unit :=
  if stopOnce lc then {| ended := Return tt; after := lc; events := [] |}
  else
    let t := teardown lc in
    {| ended := ended t;
       after := match ended t with
                | Blocked => after t
                | _ => set_stopOnce (after t)
                end;
       events := events t |}.


(** [k] calls of [stop], one after the other: what they did. A call that
    does not come back is the last. *)
Fixpoint stops (k : nat) (lc : localNetwork) : list event :=
  match k with
  | O => []
  | S k' =>
    events (stop lc)
    ++ match ended (stop lc) with
       | Blocked => []
       | _ => stops k' (after (stop lc))
       end
  end.


(** ** Facts *)

Lemma nodeName_inj : Inj (=) (=) nodeName.
Proof.
  intros i j H. unfold nodeName in H. simplify_eq. lia.
Qed.

(** The names the wrapper gives are node1, node2, ... in the order of the
    configs; no two are the same, and they are the keys of the catalogue. *)
Lemma newNetwork_nodeNames filepath_Join execPath rootDataDir subnets n :
  let lc := newNetwork filepath_Join execPath rootDataDir subnets n in
  nodeNames lc = map (λ i, "node" +:+ pretty i) (seq 1 n) ∧
  NoDup (nodeNames lc) ∧
  ∀ name, name ∈ nodeNames lc ↔ is_Some (nodeInfos lc !! name).
Proof.
  simpl. split; [|split].
  - rewrite <- seq_shift, map_map. apply map_ext. intros i.
    unfold nodeName. by replace (i + 1) with (S i) by lia.
  - apply (NoDup_fmap_2 (Inj0 := nodeName_inj) nodeName), NoDup_seq.
  - intros name. rewrite <- elem_of_dom, dom_list_to_map_L.
    rewrite elem_of_list_to_set, <- list_fmap_compose.
    done.
Qed.

Lemma stop_used_up lc :
  stopOnce lc = true →
  stop lc = {| ended := Return tt; after := lc; events := [] |}.
Proof. intros H. unfold stop. by rewrite H. Qed.


Lemma stops_used_up k lc : stopOnce lc = true → stops k lc = [].
Proof.
  revert lc. induction k as [|k IH]; intros lc H; [done|]. simpl.
  rewrite (stop_used_up lc H). simpl. by apply IH.
Qed.





(** *** [waitForHealthy] *)

Lemma record_nodes_frame nodes lc :
  closed (after (record_nodes nodes lc)) = closed lc ∧
  readycCloseOnce (after (record_nodes nodes lc)) = readycCloseOnce lc ∧
  ended (record_nodes nodes lc) ≠ Blocked.
Proof.
  revert lc. induction nodes as [|[name node] nodes IH]; intros lc; simpl.
  - done.
  - destruct (nodeInfos lc !! name) as [info|]; simpl; [|done].
    destruct (IH (set_node name info (uri_of node) (GetNodeID node)
                    (GetAPIClient node) lc)) as (Hclosed & Honce & Hended).
    by rewrite Hclosed, Honce.
Qed.

Lemma record_nodes_known nodes lc :
  (∀ name node, (name, node) ∈ nodes → is_Some (nodeInfos lc !! name)) →
  ended (record_nodes nodes lc) = Return tt.
Proof.
  revert lc. induction nodes as [|[name node] nodes IH]; intros lc Hknown;
    simpl; [done|].
  destruct (Hknown name node) as [info Hinfo]; [apply list_elem_of_here|].
  rewrite Hinfo. simpl. apply IH. intros name' node' Hin. simpl.
  destruct (decide (name = name')) as [->|Hne].
  - rewrite lookup_insert_eq. eauto.
  - rewrite lookup_insert_ne by done.
    apply (Hknown name' node'). by apply list_elem_of_further.
Qed.

Lemma proceed_not_blocked n o lc : ended (proceed n o lc) ≠ Blocked.
Proof.
  destruct o as [| |[msg|]]; simpl; try done.
  destruct (GetAllNodes n) as [nodes|msg]; simpl; [|done].
  pose proof (record_nodes_frame nodes lc) as (_ & _ & Hr).
  destruct (ended (record_nodes nodes lc)); simpl; try done.
  unfold close_readyc_once.
  destruct (readycCloseOnce _); simpl; [done|].
  by destruct (closed _ readyc).
Qed.

(** The healthy case: the catalogue is filled in, [readyc] is closed, and
    the call returns nil, when the network lists its nodes and they are the
    ones the catalogue knows. *)
Lemma proceed_healthy n nodes lc :
  GetAllNodes n = inl nodes →
  (∀ name node, (name, node) ∈ nodes → is_Some (nodeInfos lc !! name)) →
  readycCloseOnce lc = true ∨ closed lc readyc = false →
  ended (proceed n (OccHealthy None) lc) = Return None.
Proof.
  intros Hnodes Hknown Hready. simpl. rewrite Hnodes.
  rewrite (record_nodes_known _ _ Hknown). simpl.
  pose proof (record_nodes_frame nodes lc) as (Hclosed & Honce & _).
  unfold close_readyc_once. rewrite Honce, Hclosed.
  destruct (readycCloseOnce lc); simpl; [done|].
  destruct Hready as [Hr|Hr]; [done|]. by rewrite Hr.
Qed.

Lemma select_waiting lc r :
  ready lc r = [] → select lc r = head (late r ++ [OccDone]).
Proof. unfold select. by intros ->. Qed.

Lemma select_is_Some lc r : is_Some (select lc r).
Proof.
  unfold select. destruct (ready lc r) as [|c cs] eqn:Hready.
  - by destruct (late r).
  - apply lookup_lt_is_Some. apply Nat.mod_upper_bound. done.
Qed.

Lemma select_only_stop lc r :
  ready lc r ≠ [] → Forall (λ o, o = OccStop) (ready lc r) →
  select lc r = Some OccStop.
Proof.
  intros Hne Hall. unfold select.
  destruct (ready lc r) as [|c cs] eqn:Hready; [done|].
  destruct (lookup_lt_is_Some_2 (c :: cs) (pick r mod length (c :: cs))%nat)
    as [o Ho].
  { apply Nat.mod_upper_bound. done. }
  rewrite Ho. f_equal.
  apply (proj1 (Forall_lookup _ _) Hall _ _ Ho).
Qed.

Lemma waitForHealthy_select lc r n o :
  nw lc = Some n → select lc r = Some o →
  ended (waitForHealthy lc r) = ended (proceed n o lc) ∧
  after (waitForHealthy lc r) = after (proceed n o lc).
Proof. intros Hn Ho. unfold waitForHealthy. by rewrite Hn, Ho. Qed.

(** C6. A call of [waitForHealthy] on a server whose network exists always
    comes back: the [select] goes on with the deadline of the context at the
    latest. When the wait is in progress, that is, when nothing has occurred
    by the time the [select] is reached, what occurs first decides: the
    close of [stopc] gives the aborted error, the deadline gives the error
    of the context, an error from the health check gives that error, and
    the healthy result gives what the rest of the function makes of it (nil,
    when the network lists the nodes of the catalogue). In particular a stop
    that comes first never ends in success. The same holds when the stop is
    all that has occurred by the time the [select] is reached. *)
Theorem waitForHealthy_first_occurrence lc r n :
  nw lc = Some n →
  ended (waitForHealthy lc r) ≠ Blocked
  ∧ (ready lc r = [] →
     ∃ o, head (late r ++ [OccDone]) = Some o ∧
          ended (waitForHealthy lc r) = ended (proceed n o lc) ∧
          after (waitForHealthy lc r) = after (proceed n o lc))
  ∧ (ready lc r = [] → head (late r) = Some OccStop →
     ended (waitForHealthy lc r) = Return (Some errAborted) ∧
     after (waitForHealthy lc r) = lc)
  ∧ (ready lc r = [] → late r = [] ∨ head (late r) = Some OccDone →
     ended (waitForHealthy lc r) = Return (Some DeadlineExceeded))
  ∧ (ready lc r = [] →
     ∀ msg, head (late r) = Some (OccHealthy (Some msg)) →
            ended (waitForHealthy lc r) = Return (Some (ErrOf msg)))
  ∧ (ready lc r = [] → head (late r) = Some (OccHealthy None) →
     ∀ nodes,
       GetAllNodes n = inl nodes →
       (∀ name node, (name, node) ∈ nodes → is_Some (nodeInfos lc !! name)) →
       readycCloseOnce lc = true ∨ closed lc readyc = false →
       ended (waitForHealthy lc r) = Return None)
  ∧ (ready lc r ≠ [] → Forall (λ o, o = OccStop) (ready lc r) →
     ended (waitForHealthy lc r) = Return (Some errAborted) ∧
     after (waitForHealthy lc r) = lc).
Proof.
  intros Hn.
  assert (∀ o, head (late r) = Some o → head (late r ++ [OccDone]) = Some o)
    as Hhead.
  { intros o. by destruct (late r). }
  repeat apply conj.
  - destruct (select_is_Some lc r) as [o Ho].
    rewrite (proj1 (waitForHealthy_select lc r n o Hn Ho)).
    apply proceed_not_blocked.
  - intros Hready. destruct (select_is_Some lc r) as [o Ho].
    exists o. rewrite <- (select_waiting lc r Hready). split; [done|].
    by apply waitForHealthy_select.
  - intros Hready Hfirst. apply (waitForHealthy_select lc r n OccStop Hn).
    rewrite (select_waiting lc r Hready). by apply Hhead.
  - intros Hready Hfirst.
    apply (waitForHealthy_select lc r n OccDone Hn).
    rewrite (select_waiting lc r Hready).
    destruct Hfirst as [->|Hfirst]; [done|by apply Hhead].
  - intros Hready msg Hfirst.
    apply (waitForHealthy_select lc r n (OccHealthy (Some msg)) Hn).
    rewrite (select_waiting lc r Hready). by apply Hhead.
  - intros Hready Hfirst nodes Hnodes Hknown Hreadyc.
    rewrite (proj1 (waitForHealthy_select lc r n (OccHealthy None) Hn
                      ltac:(rewrite (select_waiting lc r Hready);
                            by apply Hhead))).
    by apply (proceed_healthy n nodes).
  - intros Hne Hall.
    apply (waitForHealthy_select lc r n OccStop Hn).
    by apply select_only_stop.
Qed.


(** ** A concrete server *)
Module Fixture.

Definition join (elems : list string) : string := Local.Fixture.join elems.

(** A network of two healthy nodes that stops without error. *)
Definition cluster : Network :=
  {| GetAllNodes :=
       inl [("node1", {| GetURL := "127.0.0.1"; GetAPIPort := 9650;
                         GetNodeID := "NodeID-A";
                         GetAPIClient := ClientOf "127.0.0.1:9650" |});
            ("node2", {| GetURL := "127.0.0.1"; GetAPIPort := 9652;
                         GetNodeID := "NodeID-B";
                         GetAPIClient := ClientOf "127.0.0.1:9652" |})];
     Stop := None |}.

(** The server as [newNetwork] makes it, and once [start] has created the
    network. *)
Definition created : localNetwork :=
  newNetwork join "/usr/bin/caminogo" "/tmp/root" "" 2.

Definition starting : localNetwork := set_nw cluster created.

(** The wait is under way when the stop comes; the nodes turn healthy
    later. *)
Definition stop_while_waiting : Race :=
  {| early := []; late := [OccStop; OccHealthy None]; pick := 0 |}.

(** The nodes turn healthy while the wait is under way. *)
Definition healthy_while_waiting : Race :=
  {| early := []; late := [OccHealthy None; OccStop]; pick := 0 |}.

(** The stop and then the healthy result have both come by the time the
    [select] is reached, and the runtime picks the second of the cases that
    can proceed. *)
Definition both_ready : Race :=
  {| early := [OccStop; OccHealthy None]; late := []; pick := 1 |}.

(** The server once the goroutine of [start] has finished, with the nodes
    healthy. *)
Definition running : localNetwork :=
  after (start (inl cluster) healthy_while_waiting created).

End Fixture.

Section Examples.

Import Fixture.

Example created_names : nodeNames created = ["node1"; "node2"].
Proof. vm_compute. reflexivity. Qed.

(** [start], then a first [stop], then a second. *)
Example stop_twice :
  closed running donec = true ∧
  events (stop running)
  = [EvClose stopc; EvStop None; EvReceive donec;
     EvOutf "terminated network (error <nil>)"] ∧
  ended (stop running) = Return tt ∧
  events (stop (after (stop running))) = [] ∧
  stops 3 running = events (stop running).
Proof. vm_compute. done. Qed.

(** A [stop] on a server whose network exists and whose [donec] nothing
    has closed: it stops the network and stays in the receive. *)
Example stop_waits_for_donec :
  ended (stop starting) = Blocked ∧
  events (stop starting) = [EvClose stopc; EvStop None].
Proof. vm_compute. done. Qed.

(** A [stop] before [start] has created the network closes [stopc] and
    panics; the guard is used up all the same. *)
Example stop_before_network :
  ended (stop created) = Panicked nil_dereference ∧
  events (stop created) = [EvClose stopc] ∧
  events (stop (after (stop created))) = [].
Proof. vm_compute. done. Qed.


(** [start] on a server that is stopped while it waits. *)
Example start_aborted :
  events (start (inl cluster) stop_while_waiting created)
  = [EvOutf "create and run local network";
     EvOutf "waiting for all nodes to report healthy...";
     EvHealthy 120000000000; EvCancel; EvSendErr "aborted"; EvClose donec].
Proof. vm_compute. reflexivity. Qed.

Example wait_healthy :
  ended (waitForHealthy starting healthy_while_waiting) = Return None ∧
  Uri <$> (nodeInfos (after (waitForHealthy starting healthy_while_waiting))
           !! "node2")
  = Some "http://127.0.0.1:9652".
Proof. vm_compute. done. Qed.

(** C6 at work: the stop comes first while the wait is under way. *)
Lemma waitForHealthy_first_occurrence_witness :
  ended (waitForHealthy starting stop_while_waiting) = Return (Some errAborted) ∧
  after (waitForHealthy starting stop_while_waiting) = starting.
Proof.
  destruct (waitForHealthy_first_occurrence starting stop_while_waiting cluster)
    as (_ & _ & H & _).
  - reflexivity.
  - by apply H.
Defined.

(** C6 fails as stated: the stop was requested, then the nodes turned
    healthy, both before the [select] was reached; the runtime may pick the
    healthy case, and the wait returns success after the stop. *)
Lemma waitForHealthy_success_after_stop :
  early both_ready = [OccStop; OccHealthy None] ∧
  select starting both_ready = Some (OccHealthy None) ∧
  ended (waitForHealthy starting both_ready) = Return None ∧
  ended (waitForHealthy starting both_ready) ≠ Return (Some errAborted).
Proof. vm_compute. done. Qed.

End Examples.

(** ** More about the server *)

(** The entry of a node once its address and ID are known. *)
Definition with_address (info : NodeInfo) (node : Node) : NodeInfo :=
  {| Name := Name info; ExecPath := ExecPath info;
     Uri := uri_of node; Id := GetNodeID node;
     LogDir := LogDir info; DbDir := DbDir info;
     WhitelistedSubnets := WhitelistedSubnets info |}.

Definition sends (ev : event) : bool :=
  match ev with
  | EvSendErr _ => true
  | _ => false
  end.

(** What the loop over the nodes leaves alone. *)
Lemma record_nodes_rest nodes lc :
  let lc' := after (record_nodes nodes lc) in
  binPath lc' = binPath lc ∧ nw lc' = nw lc ∧ nodeNames lc' = nodeNames lc ∧
  stopOnce lc' = stopOnce lc ∧ errc lc' = errc lc.
Proof.
  revert lc. induction nodes as [|[name node] nodes IH]; intros lc; simpl.
  - done.
  - destruct (nodeInfos lc !! name) as [info|]; simpl; [|done].
    apply (IH (set_node name info (uri_of node) (GetNodeID node)
                 (GetAPIClient node) lc)).
Qed.

Lemma record_nodes_entries nodes lc :
  NoDup nodes.*1 →
  ended (record_nodes nodes lc) = Return tt →
  let lc' := after (record_nodes nodes lc) in
  (∀ name node, (name, node) ∈ nodes →
     ∃ info, nodeInfos lc !! name = Some info ∧
             nodeInfos lc' !! name = Some (with_address info node) ∧
             apiClis lc' !! name = Some (GetAPIClient node))
  ∧ (∀ name, name ∉ nodes.*1 →
       nodeInfos lc' !! name = nodeInfos lc !! name ∧
       apiClis lc' !! name = apiClis lc !! name).
Proof.
  revert lc. induction nodes as [|[name0 node0] nodes IH]; intros lc Hnd Hend.
  { simpl. split; [|done]. intros name node Hin. by apply elem_of_nil in Hin. }
  simpl in Hnd. apply NoDup_cons in Hnd as [Hfresh Hnd].
  simpl in Hend |- *.
  destruct (nodeInfos lc !! name0) as [info0|] eqn:Hinfo0; [|done].
  simpl in Hend |- *.
  set (lc1 := set_node name0 info0 (uri_of node0) (GetNodeID node0)
                (GetAPIClient node0) lc) in *.
  destruct (IH lc1 Hnd Hend) as [Hin Hout].
  split.
  - intros name node [Heq|Hrest]%elem_of_cons.
    + injection Heq as -> ->. exists info0. split; [done|].
      destruct (Hout name0 Hfresh) as [-> ->]. simpl.
      by rewrite !lookup_insert_eq.
    + assert (name ≠ name0) as Hne.
      { intros ->. apply Hfresh. apply list_elem_of_fmap.
        by exists (name0, node). }
      destruct (Hin name node Hrest) as (info & Hinfo & Hnew & Hcli).
      exists info. split; [|done].
      simpl in Hinfo. by rewrite lookup_insert_ne in Hinfo.
  - intros name [Hne Hnot]%not_elem_of_cons. simpl in Hne.
    destruct (Hout name Hnot) as [-> ->]. simpl.
    by rewrite !lookup_insert_ne.
Qed.

(** X14. How [waitForHealthy] leaves the server. When it returns an error, the
    server is as it was: nothing of the catalogue is filled in and [readyc]
    is not closed. When it returns nil, the [select] went on with the
    healthy result and the network listed its nodes; for each of them the
    catalogue has the URI and the node ID, with the rest of the entry as
    [newNetwork] made it, and the clients have the node's API client; the
    entries of other names are untouched; and [readyc] is closed. It never
    blocks for good, and the context is cancelled however it ends. *)
Theorem waitForHealthy_fills_catalogue lc r n :
  nw lc = Some n →
  let run := waitForHealthy lc r in
  last (events run) = Some EvCancel ∧
  match ended run with
  | Return (Some e) => after run = lc
  | Return None =>
    ∃ nodes,
      select lc r = Some (OccHealthy None) ∧
      GetAllNodes n = inl nodes ∧
      readycCloseOnce (after run) = true ∧
      (readycCloseOnce lc = false → closed (after run) readyc = true) ∧
      nodeNames (after run) = nodeNames lc ∧
      errc (after run) = errc lc ∧
      stopOnce (after run) = stopOnce lc ∧
      (NoDup nodes.*1 →
       (∀ name node, (name, node) ∈ nodes →
          ∃ info, nodeInfos lc !! name = Some info ∧
                  nodeInfos (after run) !! name
                  = Some (with_address info node) ∧
                  apiClis (after run) !! name = Some (GetAPIClient node))
       ∧ (∀ name, name ∉ nodes.*1 →
            nodeInfos (after run) !! name = nodeInfos lc !! name ∧
            apiClis (after run) !! name = apiClis lc !! name))
  | Panicked _ => select lc r = Some (OccHealthy None)
  | Blocked => False
  end.
Proof.
  intros Hn. simpl. unfold waitForHealthy. rewrite Hn.
  destruct (select_is_Some lc r) as [o Ho]. rewrite Ho.
  split.
  { cbn [events]. rewrite app_assoc. apply last_snoc. }
  simpl.
  pose proof (proceed_not_blocked n o lc) as Hnb.
  destruct o as [| |[msg|]]; simpl in *; try done.
  destruct (GetAllNodes n) as [nodes|msg] eqn:Hnodes; simpl; [|done].
  pose proof (record_nodes_frame nodes lc) as (Hclosed & Honce & _).
  pose proof (record_nodes_rest nodes lc) as (_ & _ & Hnames & Hstop & Herrc).
  pose proof (record_nodes_entries nodes lc) as Hentries.
  simpl in *.
  destruct (ended (record_nodes nodes lc)) as [[]|msg|] eqn:Hrec; simpl;
    try done.
  unfold close_readyc_once.
  destruct (readycCloseOnce (after (record_nodes nodes lc))) eqn:Hdone; simpl.
  - exists nodes. split_and!; try done.
    + congruence.
    + intros Hnd. by apply Hentries.
  - destruct (closed (after (record_nodes nodes lc)) readyc) eqn:Hc; simpl;
      [done|].
    exists nodes. split_and!; try done.
    intros Hnd. by apply Hentries.
Qed.

Lemma close_readyc_once_rest lc :
  let lc' := after (close_readyc_once lc) in
  nw lc' = nw lc ∧ stopOnce lc' = stopOnce lc ∧ errc lc' = errc lc ∧
  closed lc' stopc = closed lc stopc ∧ closed lc' donec = closed lc donec.
Proof.
  unfold close_readyc_once. destruct (readycCloseOnce lc); [done|].
  by destruct (closed lc readyc).
Qed.

(** What [waitForHealthy] leaves alone, however it ends. *)
Lemma waitForHealthy_rest lc r :
  let lc' := after (waitForHealthy lc r) in
  nw lc' = nw lc ∧ stopOnce lc' = stopOnce lc ∧ errc lc' = errc lc ∧
  closed lc' stopc = closed lc stopc ∧ closed lc' donec = closed lc donec.
Proof.
  simpl. unfold waitForHealthy. destruct (nw lc) as [n|] eqn:Hn; [|done].
  destruct (select lc r) as [o|]; [|done]. simpl.
  destruct o as [| |[msg|]]; simpl; try done.
  destruct (GetAllNodes n) as [nodes|msg]; simpl; [|done].
  pose proof (record_nodes_frame nodes lc) as (Hclosed & _ & _).
  pose proof (record_nodes_rest nodes lc) as (_ & Hnw & _ & Hstop & Herrc).
  simpl in *.
  pose proof (close_readyc_once_rest (after (record_nodes nodes lc)))
    as (Hnw' & Hstop' & Herrc' & Hc1 & Hc2).
  simpl in *.
  destruct (ended (record_nodes nodes lc)) as [[]|msg|]; simpl;
    rewrite ?Hnw', ?Hstop', ?Herrc', ?Hc1, ?Hc2, ?Hnw, ?Hstop, ?Herrc,
      ?Hclosed, ?Hn; by split_and!.
Qed.

Lemma record_nodes_no_sends nodes lc :
  filter sends (events (record_nodes nodes lc)) = [].
Proof.
  revert lc. induction nodes as [|[name node] nodes IH]; intros lc; simpl.
  - done.
  - destruct (nodeInfos lc !! name) as [info|]; simpl; [|done].
    rewrite filter_cons. simpl. apply IH.
Qed.

Lemma waitForHealthy_no_sends lc r :
  filter sends (events (waitForHealthy lc r)) = [].
Proof.
  unfold waitForHealthy. destruct (nw lc) as [n|]; [|done].
  destruct (select lc r) as [o|]; [|done]. cbn [events].
  rewrite !filter_app.
  assert (filter sends (events (proceed n o lc)) = []) as ->; [|done].
  destruct o as [| |[msg|]]; simpl; try done.
  destruct (GetAllNodes n) as [nodes|msg]; simpl; [|done].
  pose proof (record_nodes_no_sends nodes lc) as Hquiet.
  destruct (ended (record_nodes nodes lc)) as [[]|msg|]; simpl;
    rewrite filter_cons; simpl; rewrite ?filter_app, Hquiet; try done.
  unfold close_readyc_once.
  destruct (readycCloseOnce _); [done|]. by destruct (closed _ readyc).
Qed.

Lemma waitForHealthy_comes_back lc r n :
  nw lc = Some n → ended (waitForHealthy lc r) ≠ Blocked.
Proof.
  intros Hn. destruct (select_is_Some lc r) as [o Ho].
  rewrite (proj1 (waitForHealthy_select lc r n o Hn Ho)).
  apply proceed_not_blocked.
Qed.

Lemma last_ends {A : Type} (l l' : list A) (x : A) :
  last (l ++ l' ++ [x]) = Some x.
Proof. by rewrite app_assoc, last_snoc. Qed.

Lemma waitForHealthy_last lc r n :
  nw lc = Some n → last (events (waitForHealthy lc r)) = Some EvCancel.
Proof.
  intros Hn. unfold waitForHealthy. rewrite Hn.
  destruct (select_is_Some lc r) as [o ->]. cbn [events].
  apply last_ends.
Qed.

Lemma report_error_room msg lc evs :
  errc lc = [] →
  ∃ lc', report_error msg lc evs
         = {| ended := Return tt; after := lc';
              events := evs ++ [EvSendErr msg] |} ∧
         errc lc' = [msg] ∧ nw lc' = nw lc ∧ stopOnce lc' = stopOnce lc ∧
         closed lc' = closed lc.
Proof.
  intros Hroom. unfold report_error, send_errc. rewrite Hroom.
  eexists. split; [done|]. done.
Qed.

Lemma report_error_full msg lc evs :
  errc lc ≠ [] →
  report_error msg lc evs = {| ended := Blocked; after := lc; events := evs |}.
Proof.
  intros Hfull. unfold report_error, send_errc. by destruct (errc lc).
Qed.

Lemma report_error_rest msg lc evs :
  nw (after (report_error msg lc evs)) = nw lc ∧
  stopOnce (after (report_error msg lc evs)) = stopOnce lc.
Proof. unfold report_error, send_errc. by destruct (errc lc). Qed.

Lemma report_error_closed msg lc evs :
  closed (after (report_error msg lc evs)) = closed lc.
Proof. unfold report_error, send_errc. by destruct (errc lc). Qed.

Lemma close_donec_rest body :
  nw (after (close_donec body)) = nw (after body) ∧
  stopOnce (after (close_donec body)) = stopOnce (after body) ∧
  errc (after (close_donec body)) = errc (after body).
Proof.
  unfold close_donec. destruct (ended body) as [[]|msg|]; try done;
    by destruct (closed (after body) donec).
Qed.

Lemma start_body_rest created r lc :
  nw (after (start_body created r lc))
  = match created with inl n => Some n | inr _ => nw lc end ∧
  stopOnce (after (start_body created r lc)) = stopOnce lc.
Proof.
  unfold start_body. destruct created as [n|msg].
  - pose proof (waitForHealthy_rest (set_nw n lc) r) as (Hnw & Hstop & _).
    simpl in Hnw, Hstop.
    destruct (ended (waitForHealthy (set_nw n lc) r)) as [[e|]|msg|];
      try done.
    destruct (report_error_rest (error_text e)
                (after (waitForHealthy (set_nw n lc) r))
                (EvOutf "create and run local network"
                 :: events (waitForHealthy (set_nw n lc) r))) as [-> ->].
    done.
  - apply report_error_rest.
Qed.

Lemma start_rest n r lc :
  nw (after (start (inl n) r lc)) = Some n ∧
  stopOnce (after (start (inl n) r lc)) = stopOnce lc.
Proof.
  unfold start.
  destruct (close_donec_rest (start_body (inl n) r lc)) as (-> & -> & _).
  apply (start_body_rest (inl n)).
Qed.

Lemma report_error_sends msg lc evs :
  filter sends evs = [] →
  filter sends (events (report_error msg lc evs))
  = match errc lc with [] => [EvSendErr msg] | _ => [] end.
Proof.
  intros Hquiet. unfold report_error, send_errc.
  destruct (errc lc); cbn [events]; [|done].
  by rewrite filter_app, Hquiet.
Qed.

Lemma start_body_quiet n r lc :
  filter sends (EvOutf "create and run local network"
                :: events (waitForHealthy (set_nw n lc) r)) = [].
Proof.
  rewrite filter_cons. simpl. apply waitForHealthy_no_sends.
Qed.

Lemma close_donec_sends body :
  filter sends (events (close_donec body)) = filter sends (events body).
Proof.
  unfold close_donec. destruct (ended body) as [[]|msg|]; try done;
    destruct (closed (after body) donec); cbn [events]; try done;
    by rewrite filter_app, app_nil_r.
Qed.

Lemma start_body_sends created r lc :
  length (filter sends (events (start_body created r lc))) ≤ 1.
Proof.
  unfold start_body. destruct created as [n|msg].
  - pose proof (start_body_quiet n r lc) as Hquiet.
    destruct (ended (waitForHealthy (set_nw n lc) r)) as [[e|]|msg|];
      cbn [events]; rewrite ?Hquiet; try (simpl; lia).
    rewrite report_error_sends by done.
    destruct (errc _); simpl; lia.
  - rewrite report_error_sends by done. destruct (errc lc); simpl; lia.
Qed.

(** X15. The goroutine of [start] on a server as [newNetwork] makes it,
    with room on [errc] and [donec] open, always comes to an end, and the
    last thing it does is close [donec], also when it fails or panics: a
    [stop] that waits for it gets its turn. It leaves one error on [errc]
    when the network could not be created or the wait failed, and none when
    the network is up or the wait panicked. The room on [errc] is needed:
    when [errc] holds an error already and there is another to report, the
    goroutine stays in the send, and [donec] is never closed. So is the
    open [donec]: on a [donec] that is closed already, the deferred close
    panics. In every case the guard of [stop] is left alone, and at most
    one error is sent. *)
Theorem start_ends_with_donec created r lc :
  let run := start created r lc in
  stopOnce (after run) = stopOnce lc ∧
  nw (after run) = match created with inl n => Some n | inr _ => nw lc end ∧
  length (filter sends (events run)) ≤ 1 ∧
  (errc lc = [] → closed lc donec = false →
   ended run ≠ Blocked ∧
   last (events run) = Some (EvClose donec) ∧
   closed (after run) donec = true ∧
   map EvSendErr (errc (after run)) = filter sends (events run) ∧
   match created with
   | inr msg =>
     ended run = Return tt ∧ errc (after run) = [msg] ∧
     events run = [EvOutf "create and run local network"; EvSendErr msg;
                   EvClose donec]
   | inl n =>
     match ended (waitForHealthy (set_nw n lc) r) with
     | Return None => ended run = Return tt ∧ errc (after run) = []
     | Return (Some e) =>
       ended run = Return tt ∧ errc (after run) = [error_text e]
     | Panicked msg => ended run = Panicked msg ∧ errc (after run) = []
     | Blocked => False
     end
   end) ∧
  (errc lc ≠ [] →
   match created with
   | inr _ => True
   | inl n => ∃ e, ended (waitForHealthy (set_nw n lc) r) = Return (Some e)
   end →
   ended run = Blocked ∧
   errc (after run) = errc lc ∧
   closed (after run) donec = closed lc donec ∧
   last (events run) ≠ Some (EvClose donec) ∧
   filter sends (events run) = []) ∧
  (closed lc donec = true →
   ended run = Blocked ∨ ended run = Panicked "close of closed channel").
Proof.
  simpl. unfold start.
  destruct (close_donec_rest (start_body created r lc))
    as (Hnw & Hguard & Herrc).
  destruct (start_body_rest created r lc) as (Hnw' & Hguard').
  split; [congruence|]. split; [congruence|].
  split; [rewrite close_donec_sends; apply start_body_sends|].
  split; [|split].
  - (* room on [errc], [donec] open *)
    intros Hroom Hopen. rewrite Herrc, close_donec_sends.
    unfold close_donec, start_body. destruct created as [n|msg].
    + pose proof (waitForHealthy_rest (set_nw n lc) r)
        as (_ & _ & Herrc' & _ & Hdonec).
      pose proof (waitForHealthy_comes_back (set_nw n lc) r n eq_refl) as Hnb.
      pose proof (start_body_quiet n r lc) as Hquiet.
      simpl in Herrc', Hdonec. rewrite Hroom in Herrc'.
      rewrite Hopen in Hdonec.
      destruct (ended (waitForHealthy (set_nw n lc) r)) as [[e|]|msg|];
        try done.
      * destruct (report_error_room (error_text e)
                    (after (waitForHealthy (set_nw n lc) r))
                    (EvOutf "create and run local network"
                     :: events (waitForHealthy (set_nw n lc) r)) Herrc')
          as (lc' & -> & Hsent & _ & _ & Hclosed).
        cbn [ended after events]. rewrite Hclosed, Hdonec.
        cbn [ended after events]. rewrite Hsent.
        split_and!; try done.
        -- apply last_snoc.
        -- by rewrite filter_app, Hquiet.
      * cbn [ended after events]. rewrite Hdonec. cbn [ended after events].
        rewrite Herrc', Hquiet. split_and!; try done.
        apply last_snoc.
      * cbn [ended after events]. rewrite Hdonec. cbn [ended after events].
        rewrite Herrc', Hquiet. split_and!; try done.
        apply last_snoc.
    + destruct (report_error_room msg lc
                  [EvOutf "create and run local network"] Hroom)
        as (lc' & -> & Hsent & _ & _ & Hclosed).
      cbn [ended after events]. rewrite Hclosed, Hopen.
      cbn [ended after events]. rewrite Hsent. by split_and!.
  - (* [errc] is full, and there is an error to report *)
    intros Hfull Hreport. rewrite Herrc, close_donec_sends.
    assert (start_body created r lc
            = {| ended := Blocked; after := after (start_body created r lc);
                 events := events (start_body created r lc) |} ∧
            errc (after (start_body created r lc)) = errc lc ∧
            closed (after (start_body created r lc)) donec = closed lc donec ∧
            last (events (start_body created r lc)) ≠ Some (EvClose donec) ∧
            filter sends (events (start_body created r lc)) = [])
      as (Hbody & Herrc' & Hdonec & Hlast & Hquiet).
    { unfold start_body. destruct created as [n|msg].
      - destruct Hreport as [e He].
        pose proof (waitForHealthy_rest (set_nw n lc) r)
          as (_ & _ & Herrc' & _ & Hdonec).
        pose proof (waitForHealthy_last (set_nw n lc) r n eq_refl) as Hlast.
        simpl in Herrc', Hdonec. rewrite He.
        rewrite report_error_full by (by rewrite Herrc').
        cbn [ended after events]. split_and!; try done.
        + rewrite last_cons, Hlast. done.
        + apply start_body_quiet.
      - rewrite report_error_full by done. by split_and!. }
    unfold close_donec. rewrite Hbody. cbn [ended after events]. done.
  - (* [donec] is closed already *)
    intros Hclosed. unfold close_donec.
    assert (closed (after (start_body created r lc)) donec = true) as ->.
    { unfold start_body. destruct created as [n|msg].
      - pose proof (waitForHealthy_rest (set_nw n lc) r)
          as (_ & _ & _ & _ & Hdonec).
        simpl in Hdonec. rewrite Hclosed in Hdonec.
        destruct (ended (waitForHealthy (set_nw n lc) r)) as [[e|]|msg|];
          rewrite ?report_error_closed; done.
      - by rewrite report_error_closed. }
    destruct (ended (start_body created r lc)) as [[]|msg|] eqn:Hbody; auto.
Qed.

(** X16. A [stop] that comes before [start] has created the network is lost. It
    closes [stopc] and panics on the network that is not there yet; the
    guard is used up all the same. The [start] that follows creates the
    network, and every later [stop] does nothing: the network is never
    stopped. *)
Theorem stop_before_network_is_lost lc :
  nw lc = None → stopOnce lc = false → closed lc stopc = false →
  ended (stop lc) = Panicked nil_dereference ∧
  events (stop lc) = [EvClose stopc] ∧
  ∀ n r,
    let lc' := after (start (inl n) r (after (stop lc))) in
    nw lc' = Some n ∧
    ∀ k, stops k lc' = [].
Proof.
  intros Hnw Honce Hopen.
  assert (stop lc = {| ended := Panicked nil_dereference;
                       after := set_stopOnce (set_closed stopc lc);
                       events := [EvClose stopc] |}) as Hstop.
  { unfold stop, teardown. rewrite Honce, Hopen. simpl. by rewrite Hnw. }
  rewrite Hstop. simpl. split; [done|]. split; [done|].
  intros n r.
  destruct (start_rest n r (set_stopOnce (set_closed stopc lc)))
    as [Hn Hguard].
  split; [done|]. intros k. by apply stops_used_up.
Qed.

(** X17. The server as [newNetwork] makes it. The nodes are named node1, node2,
    ... in the order of the configs, each name once. The catalogue has one
    entry for each name and no other: under the name, with the binary, the
    subnets, a log directory and a database directory of its own below the
    root data directory, and neither URI nor ID yet. There is no network
    and no client yet, and no channel is closed. *)
Theorem newNetwork_catalogue filepath_Join execPath rootDataDir subnets n :
  let lc := newNetwork filepath_Join execPath rootDataDir subnets n in
  nodeNames lc = map (λ i, "node" +:+ pretty i) (seq 1 n) ∧
  NoDup (nodeNames lc) ∧
  (∀ name, is_Some (nodeInfos lc !! name) ↔ name ∈ nodeNames lc) ∧
  (∀ i, i < n →
     nodeInfos lc !! ("node" +:+ pretty (S i))
     = Some {| Name := "node" +:+ pretty (S i); ExecPath := execPath;
               Uri := ""; Id := "";
               LogDir := filepath_Join [rootDataDir; "node" +:+ pretty (S i);
                                        "log"];
               DbDir := filepath_Join [rootDataDir; "node" +:+ pretty (S i);
                                       "db-dir"];
               WhitelistedSubnets := subnets |}) ∧
  nw lc = None ∧ apiClis lc = ∅ ∧ errc lc = [] ∧
  stopOnce lc = false ∧ readycCloseOnce lc = false ∧
  ∀ c, closed lc c = false.
Proof.
  destruct (newNetwork_nodeNames filepath_Join execPath rootDataDir subnets n)
    as (Hnames & Hnd & Hkeys).
  simpl in *. split_and!; try done.
  - intros i Hi.
    replace (S i) with (i + 1) by lia. fold (nodeName i).
    apply elem_of_list_to_map_1.
    + rewrite <- list_fmap_compose.
      apply (NoDup_fmap_2 (Inj0 := nodeName_inj) nodeName), NoDup_seq.
    + apply list_elem_of_fmap. exists i. split; [done|].
      apply elem_of_seq. lia.
Qed.

Section MoreServerExamples.

Import Fixture.

(** The catalogue once the two nodes have turned healthy. *)
Lemma waitForHealthy_fills_catalogue_witness :
  let run := waitForHealthy starting healthy_while_waiting in
  last (events run) = Some EvCancel ∧
  ended run = Return None ∧
  Uri <$> nodeInfos (after run) !! "node1" = Some "http://127.0.0.1:9650" ∧
  Id <$> nodeInfos (after run) !! "node2" = Some "NodeID-B" ∧
  closed (after run) readyc = true.
Proof.
  destruct (waitForHealthy_fills_catalogue starting healthy_while_waiting
              cluster eq_refl) as [Hlast Hrun].
  assert (ended (waitForHealthy starting healthy_while_waiting) = Return None)
    as Hend by (vm_compute; reflexivity).
  rewrite Hend in Hrun.
  destruct Hrun as (nodes & _ & Hnodes & _ & Hclosed & _ & _ & _ & Hentries).
  injection Hnodes as <-.
  destruct Hentries as [Hin _].
  { apply (bool_decide_unpack _). vm_compute. exact I. }
  split; [exact Hlast|]. split; [exact Hend|]. split_and!.
  - destruct (Hin "node1" _ (list_elem_of_here _ _)) as (info & _ & -> & _).
    reflexivity.
  - destruct (Hin "node2" _ (list_elem_of_further _ _ _ (list_elem_of_here _ _)))
      as (info & _ & -> & _).
    reflexivity.
  - apply Hclosed. reflexivity.
Defined.

(** [start] on the server as [newNetwork] made it, stopped while it
    waits: the error is left on [errc], and [donec] is closed last. *)
Lemma start_ends_with_donec_witness :
  let run := start (inl cluster) stop_while_waiting created in
  ended run = Return tt ∧
  errc (after run) = ["aborted"] ∧
  last (events run) = Some (EvClose donec) ∧
  closed (after run) donec = true.
Proof.
  destruct (start_ends_with_donec (inl cluster) stop_while_waiting created)
    as (_ & _ & _ & H & _).
  destruct H as (_ & Hlast & Hclosed & _ & Hcase); [reflexivity..|].
  assert (ended (waitForHealthy (set_nw cluster created) stop_while_waiting)
          = Return (Some errAborted)) as Hwait by (vm_compute; reflexivity).
  cbv beta iota in Hcase. rewrite Hwait in Hcase.
  destruct Hcase as [Hend Herrc].
  split; [exact Hend|]. split; [exact Herrc|]. split; [exact Hlast|].
  exact Hclosed.
Defined.

(** A second [start] on the same server, whose network cannot be created:
    [errc] is full, and the goroutine stays in the send. *)
Example start_stuck_on_errc :
  let lc := after (start (inl cluster) stop_while_waiting created) in
  ended (start (inr "no such binary") stop_while_waiting lc) = Blocked.
Proof. vm_compute. reflexivity. Qed.

(** A [stop] on the server as [newNetwork] made it, then [start]. *)
Lemma stop_before_network_is_lost_witness :
  ended (stop created) = Panicked nil_dereference ∧
  events (stop created) = [EvClose stopc] ∧
  ∀ n r,
    let lc' := after (start (inl n) r (after (stop created))) in
    nw lc' = Some n ∧
    ∀ k, stops k lc' = [].
Proof.
  apply (stop_before_network_is_lost created); reflexivity.
Defined.

End MoreServerExamples.

End Server.
